(** * Tic-Tac-Toe with tabular Q-learning: a shallow embedding

    The development follows [train_tic_tac_toe.py] (self-play trainer) and the
    decision logic of [tic_tac_toe_pygame.py] (table loading, move advisor,
    winner test).  Python values are embedded as follows:

    - [str] is [string], a sequence of characters with code points 0 .. 255
      (a board holds [' '], ['X'] and ['O'] only); a board is read through
      its list of characters;
    - [int] is [Z] (indices may be negative, as Python allows);
    - [float] is Rocq's primitive binary64 [float], so that [+], [-], [*],
      [<] and [==] are the IEEE 754 operations CPython uses;
    - [dict] is an insertion-ordered association list ([PyDict]);
    - a raised exception is a value of [py_exn] carried by [res];
    - the pseudo-random generator is an oracle handed to the code. *)

From Stdlib Require Import Floats ZArith Lia Bool Ascii.
From Stdlib Require DecimalString.
From stdpp Require Import base list strings sorting.

Set Warnings "-inexact-float,-register-all".
Set Default Proof Using "Type".

Local Open Scope Z_scope.

(** ** Exceptions and results *)

(** The exception classes the code can meet; [OtherException] stands for any
    other class, by its name. *)
Inductive py_exn : Set :=
| IndexError
| AttributeError
| ValueError
| JSONDecodeError
| IsADirectoryError
| PermissionError
| UnicodeDecodeError
| OtherException (name : string).

Inductive res (A : Type) : Type :=
| Ok (a : A)
| Raise (e : py_exn).
Arguments Ok {A} a.
Arguments Raise {A} e.

#[global] Instance res_ret : MRet res := fun A a => Ok a.
#[global] Instance res_bind : MBind res := fun A B k m =>
  match m with
  | Ok a => k a
  | Raise e => Raise e
  end.

Definition is_ok {A} (r : res A) : bool :=
  match r with Ok _ => true | Raise _ => false end.

(** ** Python sequences *)

Module Py.

(** [seq[i]] for a sequence of length [len]: indices [-len .. len-1] are
    accepted, the negative ones counting from the end. *)
Definition norm_index (len : nat) (i : Z) : option nat :=
  if decide (0 ≤ i < Z.of_nat len) then Some (Z.to_nat i)
  else if decide (- Z.of_nat len ≤ i < 0) then Some (Z.to_nat (Z.of_nat len + i))
  else None.

Definition chars (s : string) : list ascii := String.list_ascii_of_string s.

(** [s[i]] on a [str]; the one-character result is kept as its character. *)
Definition str_getitem (s : string) (i : Z) : res ascii :=
  match norm_index (length (chars s)) i with
  | Some n => match chars s !! n with
              | Some c => Ok c
              | None => Raise IndexError
              end
  | None => Raise IndexError
  end.

(** [list(s)]: the list of one-character strings. *)
Definition list_of_str (s : string) : list string :=
  (fun c => String c EmptyString) <$> chars s.

(** [lst[i] = x] on a list. *)
Definition list_setitem {A} (l : list A) (i : Z) (x : A) : res (list A) :=
  match norm_index (length l) i with
  | Some n => Ok (<[n := x]> l)
  | None => Raise IndexError
  end.

(** ["".join(lst)] *)
Definition join (l : list string) : string :=
  foldr String.append EmptyString l.

(** [enumerate(l)], counting from [i]. *)
Fixpoint enumerate_from {A} (i : Z) (l : list A) : list (Z * A) :=
  match l with
  | [] => []
  | x :: l' => (i, x) :: enumerate_from (i + 1) l'
  end.

Definition enumerate {A} (l : list A) : list (Z * A) := enumerate_from 0 l.

(** [max(x, *l, key=key)] on floats: the first item is kept until a later
    one compares strictly greater ([item > best]). *)
Definition max_by {A} (key : A → float) (x : A) (l : list A) : A :=
  fold_left (fun best y => if PrimFloat.ltb (key best) (key y) then y else best) l x.

(** [random.choice(l)]: the generator draws [k] and the item at position
    [k mod len(l)] is returned (CPython draws below [len(l)]). *)
Definition random_choice {A} (k : nat) (l : list A) : option A :=
  l !! (k `mod` length l)%nat.

End Py.

(** ** Insertion-ordered dictionaries *)

Module PyDict.
Section Dict.
Context {K V : Type} `{EqDecision K}.

Definition t := list (K * V).

(** [d.get(k)] *)
Fixpoint get (d : t) (k : K) : option V :=
  match d with
  | [] => None
  | (k', v) :: d' => if decide (k' = k) then Some v else get d' k
  end.

(** [d[k] = v]: a present key keeps its position, a new one goes last. *)
Fixpoint set (d : t) (k : K) (v : V) : t :=
  match d with
  | [] => [(k, v)]
  | (k', v') :: d' =>
      if decide (k' = k) then (k', v) :: d' else (k', v') :: set d' k v
  end.

Definition keys (d : t) : list K := fst <$> d.

(** Keys of a dictionary are pairwise distinct. *)
Definition wf (d : t) : Prop := NoDup (keys d).

(** [d[kv[0]] = kv[1]], the step of a loop that writes a list of entries. *)
Definition set_entry (d : t) (kv : K * V) : t := set d kv.1 kv.2.

End Dict.
Arguments t : clear implicits.
End PyDict.

(** ** Board model ([train_tic_tac_toe.py], TIC-TAC-TOE GAME LOGIC;
       [check_winner] and [is_draw] are repeated verbatim in
       [tic_tac_toe_pygame.py]) *)

Inductive player : Set := PX | PO.

Definition mark_char (p : player) : ascii :=
  match p with PX => "X"%char | PO => "O"%char end.

(** The one-character strings ['X'] and ['O']. *)
Definition symbol (p : player) : string := String (mark_char p) EmptyString.

Definition blank : ascii := " "%char.

Module Board.

Definition initial_state : string := "         ".

(** [[i for i, ch in enumerate(state_str) if ch == ' ']] *)
Definition available_actions (state_str : string) : list Z :=
  fst <$> filter (fun p : Z * ascii => p.2 = blank) (Py.enumerate (Py.chars state_str)).

Definition next_state (state_str : string) (action : Z) (symbol : string) : res string :=
  lst ← Py.list_setitem (Py.list_of_str state_str) action symbol;
  mret (Py.join lst).

Definition wins : list (Z * Z * Z) :=
  [ (0,1,2); (3,4,5); (6,7,8);
    (0,3,6); (1,4,7); (2,5,8);
    (0,4,8); (2,4,6) ].

(** The [for (a,b,c) in wins] loop; the chained comparison
    [s[a] == s[b] == s[c] == symbol] evaluates its operands left to right
    and stops at the first false link. *)
Fixpoint check_lines (state_str symbol : string) (lines : list (Z * Z * Z)) : res bool :=
  match lines with
  | [] => Ok false
  | (a, b, c) :: rest =>
      xa ← Py.str_getitem state_str a;
      xb ← Py.str_getitem state_str b;
      if decide (xa = xb) then
        xc ← Py.str_getitem state_str c;
        if decide (xb = xc) then
          if decide (String xc EmptyString = symbol) then Ok true
          else check_lines state_str symbol rest
        else check_lines state_str symbol rest
      else check_lines state_str symbol rest
  end.

Definition check_winner (state_str symbol : string) : res bool :=
  check_lines state_str symbol wins.

(** [' ' not in state_str] *)
Definition is_draw (state_str : string) : bool :=
  bool_decide (blank ∉ Py.chars state_str).

(** A line of [state_str] all of whose cells hold the mark [m]. *)
Definition line_filled (state_str : string) (m : ascii) (line : Z * Z * Z) : Prop :=
  Py.str_getitem state_str line.1.1 = Ok m
  ∧ Py.str_getitem state_str line.1.2 = Ok m
  ∧ Py.str_getitem state_str line.2 = Ok m.

(** Number of cells of [state_str] holding [m]. *)
Definition count_cells (m : ascii) (state_str : string) : nat :=
  length (filter (fun c => c = m) (Py.chars state_str)).

End Board.


(** ** Q-learning support ([train_tic_tac_toe.py]) *)

Module QLearning.
Import Board.
Local Open Scope float_scope.

Definition ALPHA : float := 0.5.
Definition GAMMA : float := 0.9.
Definition EPSILON_START : float := 1.0.
Definition EPSILON_END : float := 0.01.
Definition EPISODES : Z := 20000%Z.

Definition REWARD_WIN : float := 1.0.
Definition REWARD_LOSE : float := -1.0.
Definition REWARD_DRAW : float := 0.0.

(** The global [Q]: a [dict] from [(state, action)] to a float. *)
Definition Qtable : Type := PyDict.t (string * Z) float.

(** [Q.get((state, action), 0.0)] *)
Definition get_q_value (Q : Qtable) (state : string) (action : Z) : float :=
  default 0.0 (PyDict.get Q (state, action)).

Definition best_action (Q : Qtable) (state : string) : option Z :=
  match available_actions state with
  | [] => None
  | a :: acts => Some (Py.max_by (fun a => get_q_value Q state a) a acts)
  end.

(** [u] is the value of [random.random()] and [k] the draw of
    [random.choice] for this call.  [acts] is not empty where
    [random.choice] is reached, so it returns an item. *)
Definition epsilon_greedy_action (Q : Qtable) (state : string) (epsilon : float)
    (u : float) (k : nat) : option Z :=
  match available_actions state with
  | [] => None
  | _ :: _ =>
      if PrimFloat.ltb u epsilon then Py.random_choice k (available_actions state)
      else best_action Q state
  end.

(** The local [max_q_next] of [update_q_value]: [0.0], replaced by the [max]
    of the generator of next values when [next_acts] is not empty. *)
Definition max_q_next (Q : Qtable) (new_state : string) : float :=
  match available_actions new_state with
  | [] => 0.0
  | a :: next_acts =>
      Py.max_by (fun v => v) (get_q_value Q new_state a)
        (get_q_value Q new_state <$> next_acts)
  end.

Definition update_q_value (Q : Qtable) (old_state : string) (action : Z)
    (reward : float) (new_state : string) : Qtable :=
  let old_q := get_q_value Q old_state action in
  let new_q := old_q + ALPHA * (reward + GAMMA * max_q_next Q new_state - old_q) in
  PyDict.set Q (old_state, action) new_q.

(** [last_state] and [last_action] are two dictionaries over the keys ['X']
    and ['O'], always written together; one record holds, per player, either
    [None] or the recorded (state, action). *)
Record last_moves : Type := LastMoves {
  last_X : option (string * Z);
  last_O : option (string * Z)
}.

Definition last_of (l : last_moves) (p : player) : option (string * Z) :=
  match p with PX => last_X l | PO => last_O l end.

Definition set_last (l : last_moves) (p : player) (m : string * Z) : last_moves :=
  match p with
  | PX => LastMoves (Some m) (last_O l)
  | PO => LastMoves (last_X l) (Some m)
  end.

(** [update_q_value(last_state[p], last_action[p], reward, new_state)] under
    the guard [last_state[p] is not None]. *)
Definition update_last (Q : Qtable) (l : last_moves) (p : player) (reward : float)
    (new_state : string) : Qtable :=
  match last_of l p with
  | Some (ls, la) => update_q_value Q ls la reward new_state
  | None => Q
  end.

(** The [while True] loop of [play_one_game].  [fuel] bounds the number of
    iterations ([None]: the bound was reached); [rand t] gives the two
    random draws of iteration [t].  The result is the returned integer and
    the table as the game leaves it. *)
Fixpoint play_loop (fuel : nat) (rand : nat → float * nat) (epsilon : float) (t : nat)
    (Q : Qtable) (state : string) (current_symbol other_symbol : player)
    (last : last_moves) : option (res (Z * Qtable)) :=
  match fuel with
  | O => None
  | S fuel' =>
      match epsilon_greedy_action Q state epsilon (rand t).1 (rand t).2 with
      | None => Some (Ok (0%Z, Q))
      | Some action =>
          let old_state := state in
          match next_state state action (symbol current_symbol) with
          | Raise e => Some (Raise e)
          | Ok state =>
              let Q := update_last Q last current_symbol 0.0 old_state in
              match check_winner state (symbol current_symbol) with
              | Raise e => Some (Raise e)
              | Ok true =>
                  let Q := update_q_value Q old_state action REWARD_WIN state in
                  let Q := update_last Q last other_symbol REWARD_LOSE old_state in
                  Some (Ok (if decide (symbol current_symbol = "X"%string)
                            then 1%Z else (-1)%Z, Q))
              | Ok false =>
                  if is_draw state then
                    Some (Ok (0%Z, update_q_value Q old_state action REWARD_DRAW state))
                  else
                    play_loop fuel' rand epsilon (S t) Q state
                      other_symbol current_symbol
                      (set_last last current_symbol (old_state, action))
              end
          end
      end
  end.

Definition play_one_game (fuel : nat) (rand : nat → float * nat) (epsilon : float)
    (Q : Qtable) : option (res (Z * Qtable)) :=
  play_loop fuel rand epsilon 0 Q initial_state PX PO (LastMoves None None).

End QLearning.

(** ** Move advisor ([tic_tac_toe_pygame.py]) *)

Module Advisor.
Local Open Scope float_scope.

(** [get_q_value] is defined there as in the trainer. *)
Definition get_q_value := QLearning.get_q_value.

(** [k] is the draw of [random.choice] for this call. *)
Definition choose_best_action (Q : QLearning.Qtable) (state : string) (k : nat)
    : option Z :=
  let valid_actions :=
    fst <$> filter (fun p : Z * ascii => p.2 = blank) (Py.enumerate (Py.chars state)) in
  match valid_actions with
  | [] => None
  | a0 :: rest =>
      let qvals := (fun a => (get_q_value Q state a, a)) <$> valid_actions in
      if forallb (fun qv : float * Z => PrimFloat.eqb qv.1 0.0) qvals then
        Py.random_choice k valid_actions
      else
        Some (Py.max_by (fun x : float * Z => x.1) (get_q_value Q state a0, a0)
                ((fun a => (get_q_value Q state a, a)) <$> rest)).2
  end.

End Advisor.

(** ** Persistence of the table ([save_q_table], [load_q_table]) *)

Module Persist.

(** What [json.load] returns: the Python objects of a JSON text.  An object
    is a [dict], kept in the order of the text. *)
Inductive json : Type :=
| JNull
| JBool (b : bool)
| JInt (z : Z)
| JFloat (f : float)
| JStr (s : string)
| JArr (l : list json)
| JObj (d : list (string * json)).

(** What [os.path.exists], [open] and [json.load] make of [file_path]; they
    belong to Python's library and to the file system, so their outcome is
    given to the code:
    - [Missing]: [os.path.exists(file_path)] is [False];
    - [Unreadable e]: the path exists and [open(file_path, "r")] or
      [json.load(f)] raises [e], whatever exception that is
      ([IsADirectoryError] for a directory, [PermissionError],
      [UnicodeDecodeError] for bytes that are no text in the encoding of the
      locale, [JSONDecodeError] for a text that is not JSON, ...);
    - [Document q_data]: [json.load(f)] returns [q_data].
    [json.dump] of a document leaves the file that reads back as that
    document. *)
Inductive path_state : Type :=
| Missing
| Unreadable (e : py_exn)
| Document (q_data : json).

(** The table as [load_q_table] fills it: the values are whatever objects the
    file held. *)
Definition Ptable : Type := PyDict.t (string * Z) json.

(** A table written by training holds floats. *)
Definition of_Qtable (Q : QLearning.Qtable) : Ptable :=
  (fun kv : string * Z * float => (kv.1, JFloat kv.2)) <$> Q.

(** [str(action)] for an [int]: its decimal numeral. *)
Definition py_str (action : Z) : string :=
  DecimalString.NilZero.string_of_int (Z.to_int action).

(** The characters [int] skips around a numeral: the ASCII white space
    (tab, line feed, vertical tab, form feed, carriage return, space) and,
    above 127, the characters that are white space for Unicode, of which
    U+0085 and U+00A0 lie below 256.  The separators U+001C .. U+001F, which
    [str.strip] removes, are not skipped by [int]. *)
Definition is_space (c : ascii) : bool :=
  let n := nat_of_ascii c in
  ((9 <=? n) && (n <=? 13) || (n =? 32) || (n =? 133) || (n =? 160))%nat.

Definition digit_of (c : ascii) : option Z :=
  let n := nat_of_ascii c in
  if ((48 <=? n) && (n <=? 57))%nat then Some (Z.of_nat n - 48) else None.

(** Digits, where single underscores may separate two digits. *)
Fixpoint digits_value (acc : Z) (after_digit : bool) (cs : list ascii) : option Z :=
  match cs with
  | [] => if after_digit then Some acc else None
  | c :: cs' =>
      match digit_of c with
      | Some d => digits_value (10 * acc + d) true cs'
      | None =>
          if decide (c = "_"%char) then
            if after_digit then digits_value acc false cs' else None
          else None
      end
  end.

Fixpoint lstrip (cs : list ascii) : list ascii :=
  match cs with
  | c :: cs' => if is_space c then lstrip cs' else cs
  | [] => []
  end.

Definition strip (cs : list ascii) : list ascii :=
  reverse (lstrip (reverse (lstrip cs))).

(** [sys.get_int_max_str_digits()] as CPython sets it by default. *)
Definition max_str_digits : Z := 4300.

(** The numeral after the sign: [int] raises [ValueError] when it has more
    than [max_str_digits] digits (underscores are not counted). *)
Definition numeral_value (cs : list ascii) : option Z :=
  if max_str_digits <? Z.of_nat (length (filter (fun c => is_Some (digit_of c)) cs))
  then None
  else digits_value 0 false cs.

(** [int(action_str)]: the white space around the numeral is dropped, one
    sign may come first, then decimal digits, single underscores allowed
    between them.  Below 256 the decimal digits are ['0'] .. ['9'].  [None]
    stands for [ValueError]. *)
Definition py_int (action_str : string) : option Z :=
  match strip (Py.chars action_str) with
  | c :: cs =>
      if decide (c = "-"%char) then Z.opp <$> numeral_value cs
      else if decide (c = "+"%char) then numeral_value cs
      else numeral_value (c :: cs)
  | [] => None
  end.

(** [v.items()]: only a [dict] has the method. *)
Definition items (v : json) : res (list (string * json)) :=
  match v with
  | JObj d => Ok d
  | _ => Raise AttributeError
  end.

(** The inner loop [for action_str, value in actions.items()].  The table is
    returned together with the exception that stopped the loop, if any: the
    entries written before it stay in the table. *)
Fixpoint load_actions (Q : Ptable) (state : string) (actions : list (string * json))
    : Ptable * option py_exn :=
  match actions with
  | [] => (Q, None)
  | (action_str, value) :: rest =>
      match py_int action_str with
      | None => (Q, Some ValueError)
      | Some action => load_actions (PyDict.set Q (state, action) value) state rest
      end
  end.

(** The outer loop [for state, actions in q_data.items()]. *)
Fixpoint load_states (Q : Ptable) (q_data : list (string * json))
    : Ptable * option py_exn :=
  match q_data with
  | [] => (Q, None)
  | (state, actions) :: rest =>
      match items actions with
      | Raise e => (Q, Some e)
      | Ok acts =>
          match load_actions Q state acts with
          | (Q', Some e) => (Q', Some e)
          | (Q', None) => load_states Q' rest
          end
      end
  end.

(** [load_q_table(file_path)] run with the global table [Q]; the same text
    is in both source files. *)
Definition load_q_table (file : path_state) (Q : Ptable) : Ptable * option py_exn :=
  match file with
  | Missing => ([], None)
  | Unreadable e => (Q, Some e)
  | Document q_data =>
      match items q_data with
      | Raise e => (Q, Some e)
      | Ok d => load_states Q d
      end
  end.

(** The loop of [save_q_table] over [Q.items()], building [q_data]. *)
Fixpoint save_items (q_data : PyDict.t string (PyDict.t string json))
    (entries : list (string * Z * json)) : PyDict.t string (PyDict.t string json) :=
  match entries with
  | [] => q_data
  | (state, action, value) :: rest =>
      let q_data :=
        match PyDict.get q_data state with
        | None => PyDict.set q_data state []
        | Some _ => q_data
        end in
      let inner := default [] (PyDict.get q_data state) in
      save_items (PyDict.set q_data state (PyDict.set inner (py_str action) value)) rest
  end.

Definition to_json (q_data : PyDict.t string (PyDict.t string json)) : json :=
  JObj ((fun sv : string * PyDict.t string json => (sv.1, JObj sv.2)) <$> q_data).

(** [save_q_table(file_path)]: the file as it is left. *)
Definition save_q_table (Q : Ptable) : path_state :=
  Document (to_json (save_items [] Q)).

(** The persisted format in the words of the specification (section 6): a
    mapping from 9-character state strings to mappings from the action
    strings "0" .. "8" to numeric values. *)
Definition spec_action_key (k : string) : bool :=
  bool_decide (k ∈ ["0"; "1"; "2"; "3"; "4"; "5"; "6"; "7"; "8"]%string).

Definition spec_numeric (v : json) : bool :=
  match v with JInt _ | JFloat _ => true | _ => false end.

Definition spec_format_ok (q_data : json) : bool :=
  match q_data with
  | JObj d =>
      forallb (fun sv : string * json =>
                 bool_decide (length (Py.chars sv.1) = 9%nat)
                 && match sv.2 with
                    | JObj inner =>
                        forallb (fun kv : string * json =>
                                   spec_action_key kv.1 && spec_numeric kv.2) inner
                    | _ => false
                    end) d
  | _ => false
  end.

(** The files on which the code of [load_q_table] raises nothing. *)
Definition loadable (file : path_state) : Prop :=
  match file with
  | Missing => True
  | Document (JObj d) =>
      Forall (fun sv : string * json =>
                ∃ inner, sv.2 = JObj inner
                  ∧ Forall (fun kv : string * json => is_Some (py_int kv.1)) inner) d
  | _ => False
  end.

End Persist.

(** ** The exploration schedule of [main] *)

Module Schedule.
Import QLearning.
Local Open Scope float_scope.

Section WithPow.
(** [x ** y] on floats is the C library's [pow]; it is not an IEEE 754 basic
    operation and is taken as given. *)
Variable pow : float → float → float.

(** [1.0 / EPISODES] converts the [int] 20000 to the float 20000.0. *)
Definition decay : float :=
  if PrimFloat.ltb 0.0 EPSILON_START
  then pow (EPSILON_END / EPSILON_START) (1.0 / 20000.0)
  else 1.0.

(** [max(EPSILON_END, epsilon * decay)]: the built-in [max] of two items. *)
Definition next_epsilon (epsilon : float) : float :=
  Py.max_by (fun v => v) EPSILON_END [epsilon * decay].

(** The value of [epsilon] passed to [play_one_game] in iteration [episode]
    of [for episode in range(EPISODES)]; the game does not write it. *)
Fixpoint epsilon_at (episode : nat) : float :=
  match episode with
  | O => EPSILON_START
  | S n => next_epsilon (epsilon_at n)
  end.
End WithPow.

End Schedule.

(** ** Notions used to state the properties *)

Module Aux.
Import Persist.

(** The three indices of a line are inside the string. *)
Definition line_in_range (s : string) (line : Z * Z * Z) : Prop :=
  (0 ≤ line.1.1 < Z.of_nat (length (Py.chars s)))
  ∧ (0 ≤ line.1.2 < Z.of_nat (length (Py.chars s)))
  ∧ (0 ≤ line.2 < Z.of_nat (length (Py.chars s))).

(** [int] accepts the key of the item. *)
Definition parses (kv : string * json) : Prop := is_Some (py_int kv.1).

(** The value of a state is an object all of whose keys [int] accepts. *)
Definition state_ok (sv : string * json) : Prop :=
  ∃ inner, sv.2 = JObj inner ∧ Forall parses inner.

(** The entry a state and one item of its inner dictionary stand for. *)
Definition entry_of (s : string) (kv : string * json) : string * Z * json :=
  (s, default 0 (py_int kv.1), kv.2).

(** The entries of a nested dictionary, in the order the loader visits them. *)
Definition entries_of (D : PyDict.t string (PyDict.t string json))
    : list (string * Z * json) :=
  D ≫= (fun sv => entry_of sv.1 <$> sv.2).

Definition inner_ok (D : PyDict.t string (PyDict.t string json)) : Prop :=
  Forall (fun sv : string * PyDict.t string json => Forall parses sv.2) D.


End Aux.

(** ** The training loop of [main] ([train_tic_tac_toe.py]) *)

Module Training.
Import QLearning.

(** The counters [x_wins], [o_wins] and [draws]. *)
Record tally : Type := Tally {
  x_wins : Z;
  o_wins : Z;
  draws : Z
}.

(** The [if result == +1 ... elif result == -1 ... else] of the loop. *)
Definition count_result (t : tally) (result : Z) : tally :=
  if decide (result = 1) then Tally (x_wins t + 1) (o_wins t) (draws t)
  else if decide (result = -1) then Tally (x_wins t) (o_wins t + 1) (draws t)
  else Tally (x_wins t) (o_wins t) (draws t + 1).

Section WithPow.
Variable pow : float → float → float.

(** [n] iterations of [for episode in range(EPISODES)], the next one being
    number [episode].  Each game runs with [fuel] for its loop and with the
    random draws [rand episode]; the counters, [epsilon] and the table are
    threaded through. *)
Fixpoint episodes (n : nat) (fuel : nat) (rand : nat → nat → float * nat)
    (episode : nat) (epsilon : float) (Q : Qtable) (t : tally)
    : option (res (tally * float * Qtable)) :=
  match n with
  | O => Some (Ok (t, epsilon, Q))
  | S n' =>
      match play_one_game fuel (rand episode) epsilon Q with
      | None => None
      | Some (Raise e) => Some (Raise e)
      | Some (Ok (result, Q')) =>
          episodes n' fuel rand (S episode)
            (Schedule.next_epsilon pow epsilon) Q' (count_result t result)
      end
  end.

(** The loop of [main], from the table that [load_q_table] left. *)
Definition main_loop (fuel : nat) (rand : nat → nat → float * nat) (Q : Qtable)
    : option (res (tally * float * Qtable)) :=
  episodes (Z.to_nat EPISODES) fuel rand 0 EPSILON_START Q (Tally 0 0 0).
End WithPow.

End Training.

(** ** The game loop of the window ([tic_tac_toe_pygame.py])

    Drawing, the clock and the half-second wait do not touch the state of
    the game and are left out; what the window system reports (the events of
    a frame, the mouse position when a click is handled, the two buttons of
    the end-of-game overlay) is an input of the frame. *)

Module UI.

Definition WINDOW_SIZE : Z := 600.
Definition BOARD_SIZE : Z := 480.
Definition TOP_MARGIN : Z := (WINDOW_SIZE - BOARD_SIZE) / 2.
Definition LEFT_MARGIN : Z := (WINDOW_SIZE - BOARD_SIZE) / 2.
Definition CELL_SIZE : Z := BOARD_SIZE / 3.

(** [//] on [int]s is floor division, as [Z.div] for a positive divisor. *)
Definition get_cell_index (mx my : Z) : option Z :=
  if (mx <? LEFT_MARGIN) || (LEFT_MARGIN + BOARD_SIZE <? mx)
     || (my <? TOP_MARGIN) || (TOP_MARGIN + BOARD_SIZE <? my)
  then None
  else
    let col := (mx - LEFT_MARGIN) / CELL_SIZE in
    let row := (my - TOP_MARGIN) / CELL_SIZE in
    Some (row * 3 + col).

(** [lst[i]] on a list. *)
Definition list_getitem {A} (l : list A) (i : Z) : res A :=
  match Py.norm_index (length l) i with
  | Some n => match l !! n with
              | Some x => Ok x
              | None => Raise IndexError
              end
  | None => Raise IndexError
  end.

(** An event of [pygame.event.get()]; a [MOUSEBUTTONDOWN] comes with the
    position [pygame.mouse.get_pos()] reports when the event is handled. *)
Inductive event : Type :=
| QUIT
| MOUSEBUTTONDOWN (mx my : Z)
| OTHER.

(** The local variables of [main]. *)
Record game : Type := Game {
  board : list string;
  current_symbol : string;
  running : bool;
  game_over : bool;
  result_message : string
}.

Definition user_symbol : string := "X".
Definition ai_symbol : string := "O".

(** [[' '] * 9] *)
Definition empty_board : list string := replicate 9 " "%string.

Definition initial_game : game := Game empty_board "X" true false "".

(** The body of [if idx is not None and board[idx] == ' ':]. *)
Definition user_move (g : game) (idx : Z) : res game :=
  board' ← Py.list_setitem (board g) idx user_symbol;
  won ← Board.check_winner (Py.join board') user_symbol;
  if (won : bool) then
    Ok (Game board' (current_symbol g) (running g) true "You Win!")
  else if Board.is_draw (Py.join board') then
    Ok (Game board' (current_symbol g) (running g) true "It's a Draw!")
  else
    Ok (Game board' ai_symbol (running g) false (result_message g)).

(** [for event in pygame.event.get():], with its [break] on [QUIT]. *)
Fixpoint handle_events (g : game) (events : list event) : res game :=
  match events with
  | [] => Ok g
  | QUIT :: _ =>
      Ok (Game (board g) (current_symbol g) false (game_over g) (result_message g))
  | MOUSEBUTTONDOWN mx my :: rest =>
      if negb (game_over g) && bool_decide (current_symbol g = user_symbol) then
        match get_cell_index mx my with
        | None => handle_events g rest
        | Some idx =>
            cell ← list_getitem (board g) idx;
            if decide (cell = " "%string) then
              g' ← user_move g idx;
              handle_events g' rest
            else handle_events g rest
        end
      else handle_events g rest
  | OTHER :: rest => handle_events g rest
  end.

(** Step 7, the turn of the program; [k] is the draw of [random.choice]
    inside [choose_best_action], [Q] the loaded table. *)
Definition ai_turn (Q : QLearning.Qtable) (k : nat) (g : game) : res game :=
  if negb (game_over g) && bool_decide (current_symbol g = ai_symbol) then
    let state_str := Py.join (board g) in
    match Advisor.choose_best_action Q state_str k with
    | Some ai_move =>
        board' ← Py.list_setitem (board g) ai_move ai_symbol;
        won ← Board.check_winner (Py.join board') ai_symbol;
        if (won : bool) then
          Ok (Game board' user_symbol (running g) true "AI Wins!")
        else if Board.is_draw (Py.join board') then
          Ok (Game board' user_symbol (running g) true "It's a Draw!")
        else
          Ok (Game board' user_symbol (running g) false (result_message g))
    | None =>
        Ok (Game (board g) user_symbol (running g) true "It's a Draw!")
    end
  else Ok g.

(** Step 8, the buttons of the overlay. *)
Definition handle_buttons (new_game_clicked quit_clicked : bool) (g : game) : game :=
  if game_over g then
    if new_game_clicked then Game empty_board "X" (running g) false ""
    else if quit_clicked then
      Game (board g) (current_symbol g) false (game_over g) (result_message g)
    else g
  else g.

(** What the window system reports during one frame. *)
Record frame_input : Type := FrameInput {
  overlay_new : bool;
  overlay_quit : bool;
  events : list event;
  choice_draw : nat
}.

(** One iteration of [while running:].  The two buttons are read only when
    the overlay is drawn, that is when the game is over as the frame
    starts. *)
Definition frame (Q : QLearning.Qtable) (g : game) (i : frame_input) : res game :=
  let new_game_clicked := if game_over g then overlay_new i else false in
  let quit_clicked := if game_over g then overlay_quit i else false in
  g1 ← handle_events g (events i);
  g2 ← ai_turn Q (choice_draw i) g1;
  Ok (handle_buttons new_game_clicked quit_clicked g2).

(** The loop [while running:] over the frames the inputs describe; it stops
    when [running] is false or when the inputs end. *)
Fixpoint run (Q : QLearning.Qtable) (g : game) (inputs : list frame_input) : res game :=
  match inputs with
  | [] => Ok g
  | i :: rest =>
      if running g then
        g' ← frame Q g i;
        run Q g' rest
      else Ok g
  end.

End UI.

(** ** More notions used to state the properties *)

Module Aux2.
Import QLearning.

(** A key as training writes it: a board of nine cells and a cell index. *)
Definition valid_key (k : string * Z) : Prop :=
  length (Py.chars k.1) = 9%nat ∧ 0 ≤ k.2 ≤ 8.

(** [Q'] comes from [Q] by writes at valid keys: no key is lost, uniqueness
    of keys is kept, and a key it has that [Q] has not is valid. *)
Definition table_grows {V} (Q Q' : PyDict.t (string * Z) V) : Prop :=
  (∀ k, is_Some (PyDict.get Q k) → is_Some (PyDict.get Q' k))
  ∧ (PyDict.wf Q → PyDict.wf Q')
  ∧ (∀ k, is_Some (PyDict.get Q' k) → is_Some (PyDict.get Q k) ∨ valid_key k).

(** Every key of the table is valid. *)
Definition valid_table {V} (Q : PyDict.t (string * Z) V) : Prop :=
  ∀ k, is_Some (PyDict.get Q k) → valid_key k.

(** A board of the window: nine cells, each [' '], ['X'] or ['O']. *)
Definition good_board (b : list string) : Prop :=
  length b = 9%nat
  ∧ Forall (fun c => c = " "%string ∨ c = "X"%string ∨ c = "O"%string) b.

(** The last moves recorded for both players are valid keys. *)
Definition valid_last (last : last_moves) : Prop :=
  ∀ p m, last_of last p = Some m → valid_key m.

Definition tally_total (t : Training.tally) : Z :=
  Training.x_wins t + Training.o_wins t + Training.draws t.

Definition tally_le (t t' : Training.tally) : Prop :=
  Training.x_wins t ≤ Training.x_wins t'
  ∧ Training.o_wins t ≤ Training.o_wins t'
  ∧ Training.draws t ≤ Training.draws t'.

(** The entries of a document in the order the loader visits them: a state
    whose value is an object contributes one entry per item, with the action
    that [int] reads from the key. *)
Definition doc_entries (d : list (string * Persist.json))
    : list (string * Z * Persist.json) :=
  d ≫= (fun sv => match sv.2 with
                  | Persist.JObj inner => Aux.entry_of sv.1 <$> inner
                  | _ => []
                  end).

(** An item of an inner dictionary as the format of the specification wants
    it: an action key ["0"] .. ["8"] with a number. *)
Definition spec_item (kv : string * Persist.json) : Prop :=
  Persist.spec_action_key kv.1 = true ∧ Persist.spec_numeric kv.2 = true.

(** A state of a nested dictionary as the format wants it. *)
Definition spec_state (sv : string * PyDict.t string Persist.json) : Prop :=
  length (Py.chars sv.1) = 9%nat ∧ Forall spec_item sv.2.

(** A cell of the window's board holding the character [c]. *)
Definition cell_of_char (c : ascii) : string := String c EmptyString.

(** The state string the window computes from its board. *)
Definition state_of (g : UI.game) : string := Py.join (UI.board g).

(** Neither player has a line and a cell is still Empty. *)
Definition live (s : string) : Prop :=
  Board.check_winner s "X" = Ok false
  ∧ Board.check_winner s "O" = Ok false
  ∧ Board.is_draw s = false.

(** The message of a finished game says what the board shows. *)
Definition message_ok (g : UI.game) : Prop :=
  (UI.result_message g = "You Win!"%string
   ∧ Board.check_winner (state_of g) "X" = Ok true
   ∧ Board.check_winner (state_of g) "O" = Ok false)
  ∨ (UI.result_message g = "AI Wins!"%string
     ∧ Board.check_winner (state_of g) "O" = Ok true
     ∧ Board.check_winner (state_of g) "X" = Ok false)
  ∨ (UI.result_message g = "It's a Draw!"%string
     ∧ Board.is_draw (state_of g) = true
     ∧ Board.check_winner (state_of g) "X" = Ok false
     ∧ Board.check_winner (state_of g) "O" = Ok false).

(** What holds of the window's game between two frames: the board has nine
    cells, it is the user's turn, and either the game is over with a message
    that fits the board, or nobody has a line, a cell is Empty and both
    players have placed as many marks. *)
Definition ui_invariant (g : UI.game) : Prop :=
  good_board (UI.board g)
  ∧ UI.current_symbol g = "X"%string
  ∧ (if UI.game_over g then message_ok g
     else live (state_of g)
          ∧ Board.count_cells "X" (state_of g) = Board.count_cells "O" (state_of g)).

(** What holds inside a frame after the user's move, before the reply. *)
Definition ai_to_move (g : UI.game) : Prop :=
  good_board (UI.board g)
  ∧ UI.current_symbol g = "O"%string
  ∧ UI.game_over g = false
  ∧ live (state_of g)
  ∧ Board.count_cells "X" (state_of g) = S (Board.count_cells "O" (state_of g)).

(** The board after the moves [moves], made in turn from [state]: the first
    with the mark of [current], the next with the mark of [other], and so
    on. *)
Fixpoint replay (state : string) (current other : player) (moves : list Z)
    : res string :=
  match moves with
  | [] => Ok state
  | a :: rest =>
      state' ← Board.next_state state a (symbol current);
      replay state' other current rest
  end.

(** The player who makes move number [i] when [current] makes move 0 and the
    two players alternate. *)
Fixpoint turn (current other : player) (i : nat) : player :=
  match i with
  | O => current
  | S j => turn other current j
  end.

(** What a returned value says of the board the game ended on. *)
Definition outcome (final : string) (r : Z) : Prop :=
  (r = 1
   ∧ Board.check_winner final "X" = Ok true
   ∧ Board.check_winner final "O" = Ok false)
  ∨ (r = -1
     ∧ Board.check_winner final "O" = Ok true
     ∧ Board.check_winner final "X" = Ok false)
  ∨ (r = 0
     ∧ Board.check_winner final "X" = Ok false
     ∧ Board.check_winner final "O" = Ok false
     ∧ Board.is_draw final = true).

(** No mark of [b] is changed in [b']. *)
Definition keeps_marks (b b' : list string) : Prop :=
  ∀ n c, b !! n = Some c → c ≠ " "%string → b' !! n = Some c.

(** The click, if it hits the board, names one of the nine cells. *)
Definition click_in_cells (ev : UI.event) : Prop :=
  match ev with
  | UI.MOUSEBUTTONDOWN mx my =>
      ∀ idx, UI.get_cell_index mx my = Some idx → idx ≤ 8
  | _ => True
  end.

End Aux2.

Import Aux.
(** ** Order facts on binary64 floats

    [PrimFloat.ltb], [leb] and [eqb] are specified by [SFcompare]; a NaN is
    unordered with everything, so the order is partial and the facts below
    are stated with the boolean tests the code evaluates. *)

Module FloatOrder.

Ltac cmp_cases :=
  repeat match goal with
    | |- context [Z.compare ?a ?b] => destruct (Z.compare_spec a b)
    | |- context [Pos.compare_cont Eq ?a ?b] =>
        change (Pos.compare_cont Eq a b) with (Pos.compare a b);
        destruct (Pos.compare_spec a b)
    end.

Ltac sf_cases :=
  unfold SFltb, SFleb, SFeqb;
  repeat match goal with
    | x : spec_float |- _ => destruct x as [[]|[]| |[] ? ?]
    end;
  simpl; try done; cmp_cases; simpl; try done; try lia.

Lemma SF_lt_nle_trans b y x :
  SFltb b y = true → SFltb b x = false → SFleb y x = false.
Proof. sf_cases. Qed.

Lemma SF_lt_not_ge b y : SFltb b y = true → SFleb y b = false.
Proof. sf_cases. Qed.

Lemma SF_nle_nlt b x : SFleb b x = false → SFltb b x = false.
Proof. sf_cases. Qed.

Lemma SF_lt_irrefl x : SFltb x x = false.
Proof. sf_cases. Qed.

Lemma SF_lt_le x y : SFltb x y = true → SFleb x y = true.
Proof. sf_cases. Qed.



Lemma SF_eq_le x y : SFeqb x y = true → SFleb x y = true.
Proof. sf_cases. Qed.

Lemma SF_nlt_ge x y :
  SFltb x y = false → SFleb x x = true → SFleb y y = true → SFleb y x = true.
Proof. sf_cases. Qed.


(** The same facts on primitive floats. *)

Lemma lt_nle_trans (b y x : float) :
  PrimFloat.ltb b y = true → PrimFloat.ltb b x = false → PrimFloat.leb y x = false.
Proof. rewrite !FloatAxioms.ltb_spec, FloatAxioms.leb_spec. apply SF_lt_nle_trans. Qed.

Lemma lt_not_ge (b y : float) : PrimFloat.ltb b y = true → PrimFloat.leb y b = false.
Proof. rewrite FloatAxioms.ltb_spec, FloatAxioms.leb_spec. apply SF_lt_not_ge. Qed.

Lemma nle_nlt (b x : float) : PrimFloat.leb b x = false → PrimFloat.ltb b x = false.
Proof. rewrite FloatAxioms.ltb_spec, FloatAxioms.leb_spec. apply SF_nle_nlt. Qed.

Lemma lt_irrefl (x : float) : PrimFloat.ltb x x = false.
Proof. rewrite FloatAxioms.ltb_spec. apply SF_lt_irrefl. Qed.

Lemma lt_le (x y : float) : PrimFloat.ltb x y = true → PrimFloat.leb x y = true.
Proof. rewrite FloatAxioms.ltb_spec, FloatAxioms.leb_spec. apply SF_lt_le. Qed.



Lemma eq_le (x y : float) : PrimFloat.eqb x y = true → PrimFloat.leb x y = true.
Proof. rewrite FloatAxioms.eqb_spec, FloatAxioms.leb_spec. apply SF_eq_le. Qed.

Lemma nlt_ge (x y : float) :
  PrimFloat.ltb x y = false → PrimFloat.leb x x = true → PrimFloat.leb y y = true →
  PrimFloat.leb y x = true.
Proof. rewrite FloatAxioms.ltb_spec, !FloatAxioms.leb_spec. apply SF_nlt_ge. Qed.


End FloatOrder.

(** ** Facts on the Python primitives *)

Section PyFacts.
Context {A : Type}.

Lemma max_by_snoc (key : A → float) x l y :
  Py.max_by key x (l ++ [y]) =
    if PrimFloat.ltb (key (Py.max_by key x l)) (key y) then y else Py.max_by key x l.
Proof. unfold Py.max_by. by rewrite fold_left_app. Qed.

(** [max] returns the first item that no item beats: items before it are
    not [>=] it, items after it are not [>] it. *)
Lemma max_by_first_max (key : A → float) x l :
  ∃ l1 l2, x :: l = l1 ++ Py.max_by key x l :: l2
    ∧ Forall (fun u => PrimFloat.leb (key (Py.max_by key x l)) (key u) = false) l1
    ∧ Forall (fun u => PrimFloat.ltb (key (Py.max_by key x l)) (key u) = false) l2.
Proof.
  induction l as [|y l IH] using rev_ind.
  - exists [], []. by split_and!.
  - destruct IH as (l1 & l2 & Heq & H1 & H2). rewrite max_by_snoc.
    destruct (PrimFloat.ltb _ (key y)) eqn:Hlt.
    + exists (x :: l), []. split_and!; [by rewrite app_comm_cons| |done].
      rewrite Heq. apply Forall_app. split; [|apply Forall_cons; split].
      * eapply Forall_impl; [exact H1|]. intros u Hu. simpl in Hu.
        eapply FloatOrder.lt_nle_trans; [exact Hlt|]. by apply FloatOrder.nle_nlt.
      * by apply FloatOrder.lt_not_ge.
      * eapply Forall_impl; [exact H2|]. intros u Hu. simpl in Hu.
        by eapply FloatOrder.lt_nle_trans.
    + exists l1, (l2 ++ [y]). split_and!; [ |done| ].
      * by rewrite app_comm_cons, Heq, <- app_assoc.
      * apply Forall_app. split; [done|]. by apply Forall_singleton.
Qed.

Lemma max_by_in (key : A → float) x l : Py.max_by key x l ∈ x :: l.
Proof.
  destruct (max_by_first_max key x l) as (l1 & l2 & -> & _).
  apply elem_of_app. right. apply elem_of_cons. by left.
Qed.

Lemma max_by_no_greater (key : A → float) x l :
  Forall (fun u => PrimFloat.ltb (key (Py.max_by key x l)) (key u) = false) (x :: l).
Proof.
  destruct (max_by_first_max key x l) as (l1 & l2 & -> & H1 & H2).
  apply Forall_app. split; [|apply Forall_cons; split; [|done]].
  - eapply Forall_impl; [exact H1|]. intros u Hu. by apply FloatOrder.nle_nlt.
  - apply FloatOrder.lt_irrefl.
Qed.

Lemma random_choice_in (k : nat) (l : list A) :
  l ≠ [] → ∃ x, Py.random_choice k l = Some x ∧ x ∈ l.
Proof.
  intros Hl. unfold Py.random_choice.
  assert (length l ≠ 0)%nat as Hlen by (by destruct l).
  destruct (lookup_lt_is_Some_2 l (k `mod` length l)%nat) as [x Hx].
  { by apply Nat.mod_upper_bound. }
  exists x. split; [done|]. by eapply list_elem_of_lookup_2.
Qed.

Lemma enumerate_from_lookup (i : Z) (l : list A) (p : Z * A) :
  p ∈ Py.enumerate_from i l ↔ i ≤ p.1 ∧ l !! Z.to_nat (p.1 - i) = Some p.2.
Proof.
  revert i. induction l as [|x l IH]; intros i; simpl.
  - split; [by intros ?%elem_of_nil|by intros [_ ?]].
  - rewrite elem_of_cons, IH. destruct p as [j y]; simpl. split.
    + intros [[= -> ->]|[Hj Hl]].
      * split; [lia|]. by replace (i - i) with 0 by lia.
      * split; [lia|]. replace (Z.to_nat (j - i)) with (S (Z.to_nat (j - (i + 1)))) by lia.
        done.
    + intros [Hj Hl]. destruct (decide (j = i)) as [->|Hne].
      * left. replace (i - i) with 0 in Hl by lia. simpl in Hl. congruence.
      * right. split; [lia|].
        replace (Z.to_nat (j - i)) with (S (Z.to_nat (j - (i + 1)))) in Hl by lia.
        done.
Qed.

Lemma norm_index_nonneg (len : nat) (i : Z) :
  0 ≤ i < Z.of_nat len → Py.norm_index len i = Some (Z.to_nat i).
Proof. intros Hi. unfold Py.norm_index. by rewrite decide_True. Qed.
End PyFacts.

(** ** Facts on dictionaries *)

Section DictFacts.
Context {K V : Type} `{EqDecision K}.
Implicit Types (d : PyDict.t K V) (k : K) (v : V).
Import PyDict.

Lemma dict_get_set_eq d k v : get (set d k v) k = Some v.
Proof.
  induction d as [|[k' v'] d IH]; simpl.
  - by rewrite decide_True.
  - destruct (decide (k' = k)) as [->|Hne]; simpl.
    + by rewrite decide_True.
    + by rewrite decide_False.
Qed.

Lemma dict_get_set_ne d k k' v : k ≠ k' → get (set d k v) k' = get d k'.
Proof.
  intros Hne. induction d as [|[k0 v0] d IH]; simpl.
  - by rewrite decide_False.
  - destruct (decide (k0 = k)) as [->|Hk]; simpl.
    + by rewrite !decide_False.
    + destruct (decide (k0 = k')); done.
Qed.

Lemma dict_get_set d k k' v :
  get (set d k v) k' = if decide (k = k') then Some v else get d k'.
Proof.
  destruct (decide (k = k')) as [<-|Hne];
    [apply dict_get_set_eq | by apply dict_get_set_ne].
Qed.

Lemma dict_keys_set_in d k v : k ∈ keys d → keys (set d k v) = keys d.
Proof.
  unfold keys. induction d as [|[k' v'] d IH]; simpl.
  - by intros ?%elem_of_nil.
  - intros Hin. destruct (decide (k' = k)) as [->|Hne]; simpl; [done|].
    f_equal. apply IH. apply elem_of_cons in Hin as [?|?]; [congruence|done].
Qed.

Lemma dict_keys_set_notin d k v : k ∉ keys d → keys (set d k v) = keys d ++ [k].
Proof.
  unfold keys. induction d as [|[k' v'] d IH]; simpl; [done|].
  intros Hin. apply not_elem_of_cons in Hin as [Hne Hin].
  rewrite decide_False by done. simpl. f_equal. by apply IH.
Qed.

Lemma dict_wf_set d k v : wf d → wf (set d k v).
Proof.
  unfold wf. intros Hd. destruct (decide (k ∈ keys d)) as [Hin|Hin].
  - by rewrite dict_keys_set_in.
  - rewrite dict_keys_set_notin by done. apply NoDup_app. split_and!; [done| |].
    + intros x Hx ->%list_elem_of_singleton. done.
    + apply NoDup_singleton.
Qed.

Lemma dict_get_Some_in d k v : get d k = Some v → (k, v) ∈ d.
Proof.
  induction d as [|[k' v'] d IH]; simpl; [done|].
  destruct (decide (k' = k)) as [->|Hne].
  - intros [= ->]. apply elem_of_cons. by left.
  - intros H. apply elem_of_cons. right. by apply IH.
Qed.

Lemma dict_get_None_notin d k : get d k = None ↔ k ∉ keys d.
Proof.
  unfold keys. induction d as [|[k' v'] d IH]; simpl.
  - split; [intros _; apply not_elem_of_nil|done].
  - rewrite not_elem_of_cons. destruct (decide (k' = k)) as [->|Hne].
    + split; [done|intros [? _]; done].
    + rewrite IH. split; [intros ?; split; [congruence|done]|by intros [_ ?]].
Qed.

Lemma dict_in_wf_get d k v : wf d → (k, v) ∈ d → get d k = Some v.
Proof.
  unfold wf, keys. induction d as [|[k' v'] d IH]; simpl.
  - by intros _ ?%elem_of_nil.
  - intros [Hk Hd]%NoDup_cons Hin. apply elem_of_cons in Hin as [[= <- <-]|Hin].
    + by rewrite decide_True.
    + destruct (decide (k' = k)) as [->|Hne]; [|by apply IH].
      exfalso. apply Hk. apply list_elem_of_fmap. by exists (k, v).
Qed.
End DictFacts.

Section BoardFacts.
Import Board.

Lemma chars_of_list (l : list ascii) : Py.chars (String.string_of_list_ascii l) = l.
Proof. apply String.list_ascii_of_string_of_list_ascii. Qed.

Lemma join_singletons (l : list ascii) :
  Py.join ((fun c => String c EmptyString) <$> l) = String.string_of_list_ascii l.
Proof.
  unfold Py.join. induction l as [|c l IH]; simpl; [done|]. f_equal. exact IH.
Qed.

Lemma str_getitem_nonneg (s : string) (i : Z) (c : ascii) :
  0 ≤ i < Z.of_nat (length (Py.chars s)) →
  Py.str_getitem s i = Ok c ↔ Py.chars s !! Z.to_nat i = Some c.
Proof.
  intros Hi. unfold Py.str_getitem. rewrite norm_index_nonneg by done.
  destruct (Py.chars s !! Z.to_nat i) eqn:E; split; congruence.
Qed.

Lemma str_getitem_total (s : string) (i : Z) :
  0 ≤ i < Z.of_nat (length (Py.chars s)) → ∃ c, Py.str_getitem s i = Ok c.
Proof.
  intros Hi. destruct (lookup_lt_is_Some_2 (Py.chars s) (Z.to_nat i)) as [c Hc]; [lia|].
  exists c. by apply str_getitem_nonneg.
Qed.

(** Writing a one-character symbol replaces exactly one character. *)
Lemma next_state_chars (s : string) (a : Z) (m : ascii) (n : nat) :
  Py.norm_index (length (Py.chars s)) a = Some n →
  next_state s a (String m EmptyString)
  = Ok (String.string_of_list_ascii (<[n := m]> (Py.chars s))).
Proof.
  intros Hn. unfold next_state, Py.list_setitem, Py.list_of_str.
  rewrite length_fmap, Hn. simpl. unfold mret, res_ret. f_equal.
  by rewrite <- (list_fmap_insert (fun c => String c EmptyString)), join_singletons.
Qed.

Lemma next_state_raises (s : string) (a : Z) (sym : string) (e : py_exn) :
  next_state s a sym = Raise e →
  e = IndexError ∧ Py.norm_index (length (Py.chars s)) a = None.
Proof.
  unfold next_state, Py.list_setitem, Py.list_of_str. rewrite length_fmap.
  destruct (Py.norm_index _ a); simpl; [done|]. by intros [= <-].
Qed.

Lemma available_actions_spec (s : string) (a : Z) :
  a ∈ available_actions s ↔ 0 ≤ a ∧ Py.chars s !! Z.to_nat a = Some blank.
Proof.
  unfold available_actions, Py.enumerate. rewrite list_elem_of_fmap. split.
  - intros ([i c] & -> & Hin). apply list_elem_of_filter in Hin as [Hc Hin].
    apply enumerate_from_lookup in Hin as [Hi Hl]. simpl in *. subst c.
    split; [done|]. by replace (i - 0) with i in Hl by lia.
  - intros [Ha Hl]. exists (a, blank). split; [done|].
    apply list_elem_of_filter. split; [done|]. apply enumerate_from_lookup. simpl.
    split; [done|]. by replace (a - 0) with a by lia.
Qed.

Lemma available_actions_range (s : string) (a : Z) :
  a ∈ available_actions s → 0 ≤ a < Z.of_nat (length (Py.chars s)).
Proof.
  intros [Ha Hl]%available_actions_spec. apply lookup_lt_Some in Hl. lia.
Qed.

Lemma available_actions_getitem (s : string) (a : Z) :
  a ∈ available_actions s ↔
  (0 ≤ a < Z.of_nat (length (Py.chars s))) ∧ Py.str_getitem s a = Ok blank.
Proof.
  split.
  - intros Ha. pose proof (available_actions_range _ _ Ha) as Hr. split; [done|].
    apply str_getitem_nonneg; [done|]. by apply available_actions_spec.
  - intros [Hr Hg]. apply available_actions_spec. split; [lia|].
    by apply str_getitem_nonneg.
Qed.
End BoardFacts.

(** ** The winner test *)

Section WinnerFacts.
Import Board.

(** On lines whose indices are inside the string the loop raises nothing and
    answers whether some line is filled with the one-character [sym]. *)
Lemma check_lines_spec (s sym : string) (lines : list (Z * Z * Z)) :
  Forall (line_in_range s) lines →
  ∃ b, check_lines s sym lines = Ok b
    ∧ (b = true ↔
       ∃ line m, line ∈ lines ∧ line_filled s m line ∧ String m EmptyString = sym).
Proof.
  induction 1 as [|[[a b] c] lines (Ha & Hb & Hc) _ (r & Hr & Hiff)]; simpl in *.
  - exists false. split; [done|]. split; [done|].
    by intros (? & ? & ?%elem_of_nil & _).
  - destruct (str_getitem_total s a Ha) as [xa Hxa].
    destruct (str_getitem_total s b Hb) as [xb Hxb].
    destruct (str_getitem_total s c Hc) as [xc Hxc].
    assert (∀ m, line_filled s m (a, b, c) → xa = m ∧ xb = m ∧ xc = m) as Hfill.
    { intros m (H1 & H2 & H3). simpl in *. split_and!; congruence. }
    assert ((∃ line m, line ∈ lines ∧ line_filled s m line ∧ String m EmptyString = sym)
            → ∃ line m, line ∈ (a, b, c) :: lines ∧ line_filled s m line
                        ∧ String m EmptyString = sym) as Hweak.
    { intros (line & m & Hin & ?). exists line, m. split; [|done].
      apply elem_of_cons. by right. }
    assert (¬ (line_filled s xc (a, b, c) ∧ xa = xb ∧ xb = xc ∧ String xc EmptyString = sym) →
            (∃ line m, line ∈ (a, b, c) :: lines ∧ line_filled s m line
                       ∧ String m EmptyString = sym)
            → ∃ line m, line ∈ lines ∧ line_filled s m line ∧ String m EmptyString = sym)
      as Hstrong.
    { intros Hno (line & m & Hin & Hf & Hm). apply elem_of_cons in Hin as [->|Hin].
      - destruct (Hfill m Hf) as (-> & -> & ->). exfalso. apply Hno. by split_and!.
      - by exists line, m. }
    rewrite Hxa. simpl. rewrite Hxb. simpl.
    destruct (decide (xa = xb)) as [Hab|Hab].
    + rewrite Hxc. simpl. destruct (decide (xb = xc)) as [Hbc|Hbc].
      * destruct (decide (String xc EmptyString = sym)) as [Hs|Hs].
        -- exists true. split; [done|]. split; [|done]. intros _.
           exists (a, b, c), xc. split_and!; [apply elem_of_cons; by left| |done].
           unfold line_filled. simpl. subst xa xb. by split_and!.
        -- exists r. split; [done|]. rewrite Hiff. split; [done|].
           apply Hstrong. intros H. by destruct H as (_ & _ & _ & ?).
      * exists r. split; [done|]. rewrite Hiff. split; [done|].
        apply Hstrong. intros H. by destruct H as (_ & _ & ? & _).
    + exists r. split; [done|]. rewrite Hiff. split; [done|].
      apply Hstrong. intros H. by destruct H as (_ & ? & _).
Qed.

Lemma wins_in_range (s : string) :
  length (Py.chars s) = 9%nat → Forall (line_in_range s) wins.
Proof.
  intros Hlen. unfold wins, line_in_range. rewrite Hlen.
  repeat (apply Forall_cons; split; [simpl; lia|]). apply Forall_nil_2.
Qed.

Lemma filter_three_of_nine (m c0 c1 c2 c3 c4 c5 c6 c7 c8 : ascii) (line : Z * Z * Z) :
  line ∈ wins →
  [c0; c1; c2; c3; c4; c5; c6; c7; c8] !! Z.to_nat line.1.1 = Some m →
  [c0; c1; c2; c3; c4; c5; c6; c7; c8] !! Z.to_nat line.1.2 = Some m →
  [c0; c1; c2; c3; c4; c5; c6; c7; c8] !! Z.to_nat line.2 = Some m →
  (3 ≤ length (filter (fun c => c = m) [c0; c1; c2; c3; c4; c5; c6; c7; c8]))%nat.
Proof.
  unfold wins. intros Hin H1 H2 H3.
  repeat (apply elem_of_cons in Hin as [->|Hin]); [..|by apply elem_of_nil in Hin];
    simpl in H1, H2, H3; injection H1 as ->; injection H2 as ->; injection H3 as ->;
    repeat (rewrite filter_cons; case_decide; try done); simpl; lia.
Qed.
End WinnerFacts.

(** ** Writing a cell *)

Section NextStateFacts.
Import Board.

(** [next_state] on an index inside the board, whatever the cell holds: the
    call returns, the cell holds the mark afterwards, the length and all
    other cells are kept. *)
Lemma next_state_writes (s : string) (a : Z) (m : ascii) :
  0 ≤ a < Z.of_nat (length (Py.chars s)) →
  ∃ s', next_state s a (String m EmptyString) = Ok s'
    ∧ Py.chars s' = <[Z.to_nat a := m]> (Py.chars s)
    ∧ length (Py.chars s') = length (Py.chars s)
    ∧ Py.str_getitem s' a = Ok m
    ∧ ∀ i, 0 ≤ i < Z.of_nat (length (Py.chars s)) → i ≠ a →
           Py.str_getitem s' i = Py.str_getitem s i.
Proof.
  intros Ha. eexists. split; [apply next_state_chars; by apply norm_index_nonneg|].
  rewrite chars_of_list.
  assert (length (<[Z.to_nat a := m]> (Py.chars s)) = length (Py.chars s)) as Hlen
    by apply length_insert.
  split_and!; [done|done| |].
  - apply str_getitem_nonneg; rewrite chars_of_list; [lia|].
    apply list_lookup_insert_eq. lia.
  - intros i Hi Hne. unfold Py.str_getitem. rewrite chars_of_list, Hlen.
    rewrite !norm_index_nonneg by done.
    rewrite list_lookup_insert_ne by lia. done.
Qed.

Lemma mark_not_blank (p : player) : mark_char p ≠ blank.
Proof. by destruct p. Qed.
End NextStateFacts.

(** ** Legal actions are listed in increasing order *)

Section ActionFacts.
Import Board.

Lemma enumerate_filter_sorted {A} (P : Z * A → Prop) `{!∀ p, Decision (P p)}
    (i : Z) (l : list A) :
  StronglySorted Z.lt (fst <$> filter P (Py.enumerate_from i l)).
Proof.
  revert i. induction l as [|x l IH]; intros i; simpl; [constructor|].
  rewrite filter_cons. destruct (decide (P (i, x))); [|apply IH].
  simpl. apply StronglySorted_cons. split; [|apply IH].
  apply Forall_forall. intros j ([j' y] & -> & [_ Hin]%list_elem_of_filter)%list_elem_of_fmap.
  apply enumerate_from_lookup in Hin as [Hj _]. simpl in *. lia.
Qed.

Lemma available_actions_sorted (s : string) : StronglySorted Z.lt (available_actions s).
Proof. apply enumerate_filter_sorted. Qed.

Lemma sorted_lt_NoDup (l : list Z) : StronglySorted Z.lt l → NoDup l.
Proof.
  induction 1 as [|x l _ IH Hx]; constructor; [|done].
  intros Hin. rewrite Forall_forall in Hx. specialize (Hx x Hin). lia.
Qed.

Lemma available_actions_NoDup (s : string) : NoDup (available_actions s).
Proof. apply sorted_lt_NoDup, available_actions_sorted. Qed.

Lemma available_actions_nil (s : string) :
  available_actions s = [] ↔ blank ∉ Py.chars s.
Proof.
  split.
  - intros Hnil [n Hn]%list_elem_of_lookup_1.
    assert (Z.of_nat n ∈ available_actions s) as Hin.
    { apply available_actions_spec. split; [lia|]. by rewrite Nat2Z.id. }
    rewrite Hnil in Hin. by apply elem_of_nil in Hin.
  - intros Hno. destruct (available_actions s) as [|a l] eqn:E; [done|].
    exfalso. apply Hno. assert (a ∈ available_actions s) as Hin.
    { rewrite E. apply elem_of_cons. by left. }
    apply available_actions_spec in Hin as [_ Hl]. by eapply list_elem_of_lookup_2.
Qed.

Lemma max_by_fmap {A B} (f : A → B) (key : B → float) (x : A) (l : list A) :
  Py.max_by key (f x) (f <$> l) = f (Py.max_by (fun a => key (f a)) x l).
Proof.
  unfold Py.max_by. revert x. induction l as [|y l IH]; intros x; simpl; [done|].
  destruct (PrimFloat.ltb (key (f x)) (key (f y))); apply IH.
Qed.

(** On a list in increasing order, [max] with a key returns an item that no
    item beats and that every smaller item fails to equal or beat. *)
Lemma max_by_sorted (key : Z → float) (x : Z) (l : list Z) (a' : Z) :
  StronglySorted Z.lt (x :: l) → a' ∈ x :: l →
  PrimFloat.ltb (key (Py.max_by key x l)) (key a') = false
  ∧ (a' < Py.max_by key x l → PrimFloat.leb (key (Py.max_by key x l)) (key a') = false).
Proof.
  intros Hs Hin. destruct (max_by_first_max key x l) as (l1 & l2 & Heq & H1 & H2).
  pose proof (max_by_no_greater key x l) as Hng.
  rewrite Forall_forall in Hng, H1. split; [by apply Hng|].
  intros Hlt. rewrite Heq in Hs, Hin. apply elem_of_app in Hin as [Hin|Hin].
  - by apply H1.
  - exfalso. apply StronglySorted_app_1_r in Hs.
    apply StronglySorted_cons in Hs as [Hs _]. rewrite Forall_forall in Hs.
    apply elem_of_cons in Hin as [->|Hin]; [lia|]. specialize (Hs a' Hin). lia.
Qed.
End ActionFacts.

(** ** The update rule and the advisor *)

Section QFacts.
Import Board QLearning.

Lemma max_q_next_attained (Q : Qtable) (s' : string) :
  match available_actions s' with
  | [] => max_q_next Q s' = 0%float
  | _ :: _ => ∃ a', a' ∈ available_actions s' ∧ max_q_next Q s' = get_q_value Q s' a'
  end.
Proof.
  unfold max_q_next. destruct (available_actions s') as [|a acts]; [done|].
  rewrite (max_by_fmap (get_q_value Q s') (fun v => v)).
  eexists. split; [|done]. apply max_by_in.
Qed.

Lemma max_q_next_no_greater (Q : Qtable) (s' : string) :
  Forall (fun a' => PrimFloat.ltb (max_q_next Q s') (get_q_value Q s' a') = false)
    (available_actions s').
Proof.
  unfold max_q_next. destruct (available_actions s') as [|a acts]; [done|].
  rewrite (max_by_fmap (get_q_value Q s') (fun v => v)).
  apply (max_by_no_greater (fun a => get_q_value Q s' a)).
Qed.

Lemma forallb_fmap {A B} (f : A → B) (P : B → bool) (l : list A) :
  forallb P (f <$> l) = forallb (fun a => P (f a)) l.
Proof. induction l as [|x l IH]; simpl; [done|]. f_equal. exact IH. Qed.

(** The advisor, with its list of pairs read back as a list of actions. *)
Lemma choose_best_action_unfold (Q : Qtable) (state : string) (k : nat) :
  Advisor.choose_best_action Q state k =
    match available_actions state with
    | [] => None
    | a0 :: rest =>
        if forallb (fun a => PrimFloat.eqb (get_q_value Q state a) 0%float) (a0 :: rest)
        then Py.random_choice k (a0 :: rest)
        else Some (Py.max_by (get_q_value Q state) a0 rest)
    end.
Proof.
  unfold Advisor.choose_best_action, Advisor.get_q_value.
  change (fst <$> filter _ (Py.enumerate (Py.chars state)))
    with (available_actions state).
  destruct (available_actions state) as [|a0 rest]; [done|].
  rewrite forallb_fmap. simpl forallb.
  rewrite (max_by_fmap (fun a => (get_q_value Q state a, a)) (fun x => x.1)). done.
Qed.

Lemma forallb_Forall_true {A} (P : A → bool) (l : list A) :
  forallb P l = true ↔ Forall (fun a => P a = true) l.
Proof.
  induction l as [|x l IH]; simpl; [by split|].
  rewrite andb_true_iff, IH, Forall_cons. done.
Qed.
End QFacts.

(** ** One self-play game *)

Section GameFacts.
Import Board QLearning.

Lemma best_action_in (Q : Qtable) (s : string) (a : Z) :
  best_action Q s = Some a → a ∈ available_actions s.
Proof.
  unfold best_action. destruct (available_actions s) as [|a0 acts]; [done|].
  intros [= <-]. apply max_by_in.
Qed.

Lemma epsilon_greedy_action_None (Q : Qtable) (s : string) (epsilon u : float) (k : nat) :
  epsilon_greedy_action Q s epsilon u k = None ↔ available_actions s = [].
Proof.
  unfold epsilon_greedy_action, best_action.
  destruct (available_actions s) as [|a0 acts] eqn:E; [done|]. split; [|done].
  destruct (PrimFloat.ltb u epsilon); [|done].
  destruct (random_choice_in k (a0 :: acts)) as (x & -> & _); done.
Qed.

Lemma epsilon_greedy_action_in (Q : Qtable) (s : string) (epsilon u : float) (k : nat)
    (a : Z) :
  epsilon_greedy_action Q s epsilon u k = Some a → a ∈ available_actions s.
Proof.
  unfold epsilon_greedy_action. intros H.
  destruct (available_actions s) as [|a0 acts] eqn:E; [done|].
  destruct (PrimFloat.ltb u epsilon).
  - destruct (random_choice_in k (a0 :: acts)) as (x & Hx & Hin); [done|]. congruence.
  - rewrite <- E. by apply best_action_in with Q.
Qed.

Lemma filter_insert_blank (l : list ascii) (n : nat) (m : ascii) :
  l !! n = Some blank → m ≠ blank →
  S (length (filter (fun c => c = blank) (<[n := m]> l)))
  = length (filter (fun c => c = blank) l).
Proof.
  intros Hl Hm. revert n Hl. induction l as [|c l IH]; intros [|n] Hl; simpl in *;
    try done.
  - injection Hl as ->. rewrite !filter_cons, decide_False, decide_True by done. done.
  - rewrite !filter_cons. destruct (decide (c = blank)); simpl; by rewrite (IH n).
Qed.

(** A move on a legal action fills one Empty cell. *)
Lemma next_state_fills (s : string) (a : Z) (p : player) :
  a ∈ available_actions s →
  ∃ s', next_state s a (symbol p) = Ok s'
    ∧ length (Py.chars s') = length (Py.chars s)
    ∧ S (count_cells blank s') = count_cells blank s.
Proof.
  intros Ha. pose proof (available_actions_range s a Ha) as Hr.
  apply available_actions_spec in Ha as [_ Hl].
  destruct (next_state_writes s a (mark_char p) Hr) as (s' & Hs' & Hc & Hlen & _).
  exists s'. split_and!; [done|done|]. unfold count_cells. rewrite Hc.
  apply filter_insert_blank; [done|apply mark_not_blank].
Qed.

Lemma is_draw_count (s : string) : is_draw s = true ↔ count_cells blank s = 0%nat.
Proof.
  unfold is_draw, count_cells. rewrite bool_decide_eq_true, length_zero_iff_nil.
  split.
  - intros Hno. destruct (filter _ (Py.chars s)) as [|c l] eqn:E; [done|].
    assert (c ∈ filter (fun c => c = blank) (Py.chars s)) as Hc.
    { rewrite E. apply elem_of_cons. by left. }
    apply list_elem_of_filter in Hc as [-> Hc]. done.
  - intros Hnil. by apply (filter_nil_not_elem_of _ _ blank Hnil).
Qed.

Lemma available_actions_count (s : string) :
  available_actions s = [] ↔ count_cells blank s = 0%nat.
Proof.
  rewrite available_actions_nil, <- is_draw_count. unfold is_draw.
  by rewrite bool_decide_eq_true.
Qed.

(** From a board of nine cells with [e ≥ 1] Empty cells, [e] iterations are
    enough: the loop returns, raises nothing, and returns 1, -1 or 0. *)
Lemma play_loop_returns (fuel : nat) (rand : nat → float * nat) (epsilon : float) :
  ∀ (t : nat) (Q : Qtable) (state : string) (current other : player) (last : last_moves),
    length (Py.chars state) = 9%nat →
    (1 ≤ count_cells blank state ≤ fuel)%nat →
    ∃ r Q', play_loop fuel rand epsilon t Q state current other last = Some (Ok (r, Q'))
          ∧ (r = 1 ∨ r = -1 ∨ r = 0).
Proof.
  induction fuel as [|fuel IH]; intros t Q state current other last Hlen Hcnt; [lia|].
  simpl.
  destruct (epsilon_greedy_action Q state epsilon (rand t).1 (rand t).2) as [action|] eqn:Ea.
  2:{ apply epsilon_greedy_action_None, available_actions_count in Ea. lia. }
  apply epsilon_greedy_action_in in Ea.
  destruct (next_state_fills state action current Ea) as (state' & -> & Hlen' & Hfill).
  rewrite Hlen in Hlen'.
  destruct (check_lines_spec state' (symbol current) wins (wins_in_range state' Hlen'))
    as (b & Hb & _).
  unfold check_winner. rewrite Hb. destruct b.
  - eexists _, _. split; [done|]. destruct (decide _); auto.
  - destruct (is_draw state') eqn:Hd.
    + eexists _, _. split; [done|]. auto.
    + apply IH; [done|]. split; [|lia].
      destruct (count_cells blank state') eqn:Hc; [|lia].
      apply is_draw_count in Hc. congruence.
Qed.
End GameFacts.

(** ** Loading a table *)

Section LoadFacts.
Import Persist.





End LoadFacts.

(** ** Saving and loading back *)

Section DictSplitFacts.
Context {K V : Type} `{EqDecision K}.
Implicit Types (d : PyDict.t K V) (k : K) (v : V).
Import PyDict.

Lemma dict_set_notin d k v : k ∉ keys d → set d k v = d ++ [(k, v)].
Proof.
  unfold keys. induction d as [|[k' v'] d IH]; simpl; [done|].
  intros [Hne Hin]%not_elem_of_cons. rewrite decide_False by done. by rewrite IH.
Qed.

Lemma dict_get_Some_split d k v :
  get d k = Some v → ∃ pre post, d = pre ++ (k, v) :: post ∧ k ∉ keys pre.
Proof.
  induction d as [|[k' v'] d IH]; simpl; [done|].
  destruct (decide (k' = k)) as [->|Hne].
  - intros [= ->]. exists [], d. split; [done|]. apply not_elem_of_nil.
  - intros (pre & post & -> & Hpre)%IH. exists ((k', v') :: pre), post.
    split; [done|]. unfold keys. simpl. apply not_elem_of_cons. by split.
Qed.

Lemma dict_set_split (pre post : PyDict.t K V) k v v' :
  k ∉ keys pre → set (pre ++ (k, v) :: post) k v' = pre ++ (k, v') :: post.
Proof.
  unfold keys. induction pre as [|[k0 v0] pre IH]; simpl.
  - intros _. by rewrite decide_True.
  - intros [Hne Hin]%not_elem_of_cons. rewrite decide_False by done. by rewrite IH.
Qed.

(** Writing a list of entries with distinct keys gives a dictionary that
    reads as the list. *)
Lemma get_foldl_set (l : list (K * V)) d k :
  NoDup (keys l) →
  get (foldl PyDict.set_entry d l) k
  = match get l k with Some v => Some v | None => get d k end.
Proof.
  unfold keys. revert d. induction l as [|[k1 v1] l IH]; intros d; simpl; [done|].
  intros [Hk Hl]%NoDup_cons. rewrite IH by done. unfold PyDict.set_entry. simpl.
  destruct (decide (k1 = k)) as [->|Hne].
  - apply dict_get_None_notin in Hk. rewrite Hk. apply dict_get_set_eq.
  - by rewrite dict_get_set_ne.
Qed.

Lemma wf_foldl_set (l : list (K * V)) d : wf d → wf (foldl PyDict.set_entry d l).
Proof.
  revert d. induction l as [|kv l IH]; intros d Hd; simpl; [done|].
  apply IH. by apply dict_wf_set.
Qed.

Lemma get_perm (l l' : list (K * V)) k : l ≡ₚ l' → NoDup (keys l) → get l k = get l' k.
Proof.
  intros Hp Hl. assert (NoDup (keys l')) as Hl'.
  { unfold keys in *. by rewrite <- Hp. }
  destruct (get l k) as [v|] eqn:E.
  - symmetry. apply dict_in_wf_get; [done|]. rewrite <- Hp. by apply dict_get_Some_in.
  - symmetry. apply dict_get_None_notin. apply dict_get_None_notin in E.
    unfold keys in *. by rewrite <- Hp.
Qed.
End DictSplitFacts.

Section RoundTripFacts.
Import Persist.

Lemma py_int_py_str (a : Z) : 0 ≤ a ≤ 8 → py_int (py_str a) = Some a.
Proof.
  intros Ha.
  assert (a = 0 ∨ a = 1 ∨ a = 2 ∨ a = 3 ∨ a = 4 ∨ a = 5 ∨ a = 6 ∨ a = 7 ∨ a = 8)
    as Hcases by lia.
  repeat destruct Hcases as [->|Hcases]; try subst a; reflexivity.
Qed.

Lemma load_actions_fold (Q : Ptable) (s : string) (inner : list (string * json)) :
  Forall parses inner →
  load_actions Q s inner = (foldl PyDict.set_entry Q (entry_of s <$> inner), None).
Proof.
  revert Q. induction inner as [|[k v] inner IH]; intros Q; simpl; [done|].
  intros [[a Hk] Hp]%Forall_cons. simpl in Hk. rewrite Hk.
  rewrite IH by done. unfold entry_of at 2, PyDict.set_entry. simpl. by rewrite Hk.
Qed.

Lemma load_states_fold (Q : Ptable) (D : PyDict.t string (PyDict.t string json)) :
  inner_ok D →
  load_states Q ((fun sv : string * PyDict.t string json => (sv.1, JObj sv.2)) <$> D)
  = (foldl PyDict.set_entry Q (entries_of D), None).
Proof.
  unfold inner_ok, entries_of. revert Q.
  induction D as [|[s inner] D IH]; intros Q; simpl; [done|].
  intros [Hp HD]%Forall_cons. simpl in Hp.
  rewrite load_actions_fold by done. rewrite IH by done. by rewrite foldl_app.
Qed.

Lemma entries_of_app (D1 D2 : PyDict.t string (PyDict.t string json)) :
  entries_of (D1 ++ D2) = entries_of D1 ++ entries_of D2.
Proof. unfold entries_of. apply bind_app. Qed.

Lemma entries_of_cons (s : string) (inner : PyDict.t string json)
    (D : PyDict.t string (PyDict.t string json)) :
  entries_of ((s, inner) :: D) = (entry_of s <$> inner) ++ entries_of D.
Proof. done. Qed.

Lemma inner_key_entry (D : PyDict.t string (PyDict.t string json)) (s : string)
    (inner : PyDict.t string json) (a : Z) :
  (s, inner) ∈ D → 0 ≤ a ≤ 8 → py_str a ∈ PyDict.keys inner →
  (s, a) ∈ PyDict.keys (entries_of D).
Proof.
  intros HD Ha ([k v] & Hk & Hin)%list_elem_of_fmap. simpl in Hk. subst k.
  apply list_elem_of_fmap. exists (s, a, v). split; [done|].
  unfold entries_of. apply list_elem_of_bind. exists (s, inner). split; [|done].
  apply list_elem_of_fmap. exists (py_str a, v). split; [|done].
  unfold entry_of. simpl. by rewrite py_int_py_str.
Qed.

(** One iteration of the loop of [save_q_table] adds one entry. *)
Lemma save_step_perm (D : PyDict.t string (PyDict.t string json)) (s : string) (a : Z)
    (v : json) :
  inner_ok D → 0 ≤ a ≤ 8 → (s, a) ∉ PyDict.keys (entries_of D) →
  inner_ok (save_items D [(s, a, v)])
  ∧ entries_of (save_items D [(s, a, v)]) ≡ₚ entries_of D ++ [(s, a, v)].
Proof.
  intros HD Ha Hnew. simpl.
  assert (parses (py_str a, v)) as Hparse.
  { unfold parses. simpl. rewrite py_int_py_str by done. by eexists. }
  assert (entry_of s (py_str a, v) = (s, a, v)) as Hentry.
  { unfold entry_of. simpl. by rewrite py_int_py_str. }
  destruct (PyDict.get D s) as [inner|] eqn:E.
  - rewrite E. simpl.
    apply dict_get_Some_split in E as (pre & post & -> & Hpre).
    assert (py_str a ∉ PyDict.keys inner) as Hk.
    { intros Hin. apply Hnew. apply inner_key_entry with inner; [|done|done].
      apply elem_of_app. right. apply elem_of_cons. by left. }
    rewrite dict_set_split by done. rewrite (dict_set_notin inner) by done.
    unfold inner_ok in *. apply Forall_app in HD as [H1 [H2 H3]%Forall_cons].
    split.
    + apply Forall_app. split; [done|]. apply Forall_cons. split; [|done].
      simpl in *. apply Forall_app. split; [done|]. by apply Forall_singleton.
    + rewrite !entries_of_app, !entries_of_cons, fmap_app. simpl. rewrite Hentry.
      rewrite <- !app_assoc. do 2 apply Permutation_app_head.
      apply Permutation_app_comm.
  - apply dict_get_None_notin in E.
    pose proof (dict_get_set_eq D s ([] : PyDict.t string json)) as Hget.
    rewrite Hget. simpl.
    rewrite (dict_set_notin D s) by done.
    rewrite (dict_set_split D [] s) by done.
    unfold inner_ok in *. split.
    + apply Forall_app. split; [done|]. apply Forall_singleton. simpl.
      by apply Forall_singleton.
    + rewrite entries_of_app, entries_of_cons. simpl. by rewrite Hentry.
Qed.
Lemma save_items_cons (D : PyDict.t string (PyDict.t string json))
    (e : string * Z * json) (E : list (string * Z * json)) :
  save_items D (e :: E) = save_items (save_items D [e]) E.
Proof. by destruct e as [[s a] v]. Qed.

(** The loop of [save_q_table] on entries with distinct keys and actions in
    [0,8] builds a nested dictionary holding exactly those entries. *)
Lemma save_items_perm (E : list (string * Z * json)) :
  ∀ D : PyDict.t string (PyDict.t string json),
    inner_ok D →
    Forall (fun e : string * Z * json => 0 ≤ e.1.2 ≤ 8) E →
    NoDup (PyDict.keys (entries_of D) ++ PyDict.keys E) →
    inner_ok (save_items D E) ∧ entries_of (save_items D E) ≡ₚ entries_of D ++ E.
Proof.
  induction E as [|[[s a] v] E IH]; intros D HD Hr Hnd.
  - simpl. split; [done|]. by rewrite app_nil_r.
  - rewrite save_items_cons. apply Forall_cons in Hr as [Ha Hr]. simpl in Ha.
    assert ((s, a) ∉ PyDict.keys (entries_of D)) as Hnew.
    { apply NoDup_app in Hnd as (_ & Hdisj & _). intros Hin.
      apply (Hdisj _ Hin). unfold PyDict.keys. simpl. apply elem_of_cons. by left. }
    destruct (save_step_perm D s a v HD Ha Hnew) as [HD' Hperm].
    destruct (IH (save_items D [(s, a, v)]) HD' Hr) as [HD'' Hperm'].
    + unfold PyDict.keys in *. rewrite Hperm, fmap_app, <- app_assoc. exact Hnd.
    + split; [done|]. by rewrite Hperm', Hperm, <- app_assoc.
Qed.
End RoundTripFacts.

(** ** Rounding of a binary64 product

    [x * y] on floats is specified by [SFmul]: the exact product is shifted
    right to 53 bits, rounded to nearest even and renormalised.  The lemmas
    below show that this rounding cannot carry a product of a number in
    [0.01, 1] and a factor [<= 1] above that number. *)

Section FloatMulFacts.







Lemma digits2_pos_bounds (p : positive) :
  2 ^ (Zpos (digits2_pos p) - 1) ≤ Zpos p < 2 ^ Zpos (digits2_pos p).
Proof.
  induction p as [p IH|p IH|]; simpl digits2_pos.
  - rewrite Pos2Z.inj_succ. pose proof (Pos2Z.inj_xI p) as Hp.
    replace (Z.succ (Zpos (digits2_pos p)) - 1) with (Z.succ (Zpos (digits2_pos p) - 1))
      by lia.
    rewrite !Z.pow_succ_r by lia. lia.
  - rewrite Pos2Z.inj_succ. pose proof (Pos2Z.inj_xO p) as Hp.
    replace (Z.succ (Zpos (digits2_pos p)) - 1) with (Z.succ (Zpos (digits2_pos p) - 1))
      by lia.
    rewrite !Z.pow_succ_r by lia. lia.
  - done.
Qed.


Lemma digits2_pos_gt (p : positive) (k : Z) :
  0 ≤ k → 2 ^ k ≤ Zpos p → k < Zpos (digits2_pos p).
Proof.
  intros Hk Hp. destruct (digits2_pos_bounds p) as [_ Hhi].
  assert (2 ^ k < 2 ^ Zpos (digits2_pos p)) as Hlt by lia.
  apply Z.pow_lt_mono_r_iff in Hlt; lia.
Qed.









End FloatMulFacts.


(** ** The exploration schedule *)

Section ScheduleFacts.
Import QLearning Schedule.
Variable pow : float → float → float.

Lemma next_epsilon_unfold (epsilon : float) :
  next_epsilon pow epsilon
  = if PrimFloat.ltb EPSILON_END (epsilon * decay pow)%float
    then (epsilon * decay pow)%float else EPSILON_END.
Proof. reflexivity. Qed.

Lemma epsilon_at_lower (n : nat) : PrimFloat.leb EPSILON_END (epsilon_at pow n) = true.
Proof.
  destruct n as [|n]; [reflexivity|]. simpl epsilon_at. rewrite next_epsilon_unfold.
  destruct (PrimFloat.ltb _ _) eqn:E; [by apply FloatOrder.lt_le|reflexivity].
Qed.




End ScheduleFacts.

Import Aux2.

(** ** More facts on the board *)

Section BoardMoreFacts.
Import Board.

Lemma enumerate_filter_length (i : Z) (l : list ascii) :
  length (filter (fun p : Z * ascii => p.2 = blank) (Py.enumerate_from i l))
  = length (filter (fun c => c = blank) l).
Proof.
  revert i. induction l as [|c l IH]; intros i; simpl; [done|].
  rewrite !filter_cons. simpl. destruct (decide (c = blank)); simpl; by rewrite IH.
Qed.

Lemma available_actions_length (s : string) :
  length (available_actions s) = count_cells blank s.
Proof.
  unfold available_actions, Py.enumerate, count_cells.
  by rewrite length_fmap, enumerate_filter_length.
Qed.

Lemma norm_index_negative (len : nat) (i : Z) :
  - Z.of_nat len ≤ i < 0 →
  Py.norm_index len i = Py.norm_index len (i + Z.of_nat len).
Proof.
  intros Hi. unfold Py.norm_index.
  rewrite (decide_False (P := 0 ≤ i < Z.of_nat len)) by lia.
  rewrite (decide_True (P := - Z.of_nat len ≤ i < 0)) by done.
  rewrite (decide_True (P := 0 ≤ i + Z.of_nat len < Z.of_nat len)) by lia.
  f_equal. lia.
Qed.

Lemma norm_index_None (len : nat) (i : Z) :
  Py.norm_index len i = None ↔ ¬ (- Z.of_nat len ≤ i < Z.of_nat len).
Proof.
  unfold Py.norm_index.
  destruct (decide (0 ≤ i < Z.of_nat len)); [split; [done|lia]|].
  destruct (decide (- Z.of_nat len ≤ i < 0)); [split; [done|lia]|].
  split; [lia|done].
Qed.

(** A line filled with the mark [m] stays as it is when a cell that does not
    hold [m] receives a character other than [m]. *)
Lemma line_filled_insert (l : list ascii) (n : nat) (c m : ascii) (line : Z * Z * Z) :
  l !! n = Some c → c ≠ m → ∀ c', c' ≠ m →
  line_in_range (String.string_of_list_ascii l) line →
  line_filled (String.string_of_list_ascii (<[n := c']> l)) m line
  ↔ line_filled (String.string_of_list_ascii l) m line.
Proof.
  intros Hl Hc c' Hc' (R1 & R2 & R3). rewrite chars_of_list in R1, R2, R3.
  assert (∀ i, 0 ≤ i < Z.of_nat (length l) →
            Py.str_getitem (String.string_of_list_ascii (<[n := c']> l)) i = Ok m
            ↔ Py.str_getitem (String.string_of_list_ascii l) i = Ok m) as Hcell.
  { intros i Hi.
    rewrite !str_getitem_nonneg by (rewrite chars_of_list, ?length_insert; lia).
    rewrite !chars_of_list. destruct (decide (n = Z.to_nat i)) as [->|Hne].
    - rewrite list_lookup_insert_eq by lia. rewrite Hl. split; congruence.
    - by rewrite list_lookup_insert_ne. }
  unfold line_filled. by rewrite !Hcell.
Qed.
End BoardMoreFacts.

Section WinnerMoreFacts.
Import Board.

Lemma line_filled_insert_mono (l : list ascii) (n : nat) (c m c' : ascii)
    (line : Z * Z * Z) :
  l !! n = Some c → c ≠ m →
  line_in_range (String.string_of_list_ascii l) line →
  line_filled (String.string_of_list_ascii l) m line →
  line_filled (String.string_of_list_ascii (<[n := c']> l)) m line.
Proof.
  intros Hl Hc (R1 & R2 & R3). rewrite chars_of_list in R1, R2, R3.
  assert (∀ i, 0 ≤ i < Z.of_nat (length l) →
            Py.str_getitem (String.string_of_list_ascii l) i = Ok m →
            Py.str_getitem (String.string_of_list_ascii (<[n := c']> l)) i = Ok m)
    as Hcell.
  { intros i Hi.
    rewrite !str_getitem_nonneg by (rewrite chars_of_list, ?length_insert; lia).
    rewrite !chars_of_list. destruct (decide (n = Z.to_nat i)) as [->|Hne].
    - rewrite Hl. congruence.
    - by rewrite list_lookup_insert_ne. }
  intros (H1 & H2 & H3). unfold line_filled. split_and!; by apply Hcell.
Qed.

(** On two boards of nine cells whose lines are filled with [m] alike, the
    winner test for [m] answers alike. *)
Lemma check_winner_ext (s s' : string) (m : ascii) :
  length (Py.chars s) = 9%nat → length (Py.chars s') = 9%nat →
  (∀ line, line ∈ wins → line_filled s' m line → line_filled s m line) →
  (∀ line, line ∈ wins → line_filled s m line → line_filled s' m line) →
  check_winner s' (String m EmptyString) = check_winner s (String m EmptyString).
Proof.
  intros Hs Hs' H1 H2. unfold check_winner.
  destruct (check_lines_spec s (String m EmptyString) wins (wins_in_range s Hs))
    as (b & -> & Hb).
  destruct (check_lines_spec s' (String m EmptyString) wins (wins_in_range s' Hs'))
    as (b' & -> & Hb').
  f_equal. apply eq_bool_prop_intro. rewrite !Is_true_true, Hb, Hb'. split.
  - intros (line & m' & Hin & Hf & [= ->]). exists line, m. split_and!; auto.
  - intros (line & m' & Hin & Hf & [= ->]). exists line, m. split_and!; auto.
Qed.

Lemma check_winner_mono (s s' : string) (m : ascii) :
  length (Py.chars s) = 9%nat → length (Py.chars s') = 9%nat →
  (∀ line, line ∈ wins → line_filled s m line → line_filled s' m line) →
  check_winner s (String m EmptyString) = Ok true →
  check_winner s' (String m EmptyString) = Ok true.
Proof.
  intros Hs Hs' H1. unfold check_winner.
  destruct (check_lines_spec s (String m EmptyString) wins (wins_in_range s Hs))
    as (b & -> & Hb).
  destruct (check_lines_spec s' (String m EmptyString) wins (wins_in_range s' Hs'))
    as (b' & -> & Hb').
  intros [= ->]. f_equal. apply Hb'.
  destruct Hb as [Hb _]. destruct (Hb eq_refl) as (line & m' & Hin & Hf & [= ->]).
  exists line, m. split_and!; auto.
Qed.

Lemma string_of_chars (s : string) : String.string_of_list_ascii (Py.chars s) = s.
Proof. apply String.string_of_list_ascii_of_string. Qed.

(** The effect of a move on both winner tests. *)
Lemma move_winner (s : string) (a : Z) (p q : player) :
  length (Py.chars s) = 9%nat → a ∈ available_actions s →
  ∃ s', next_state s a (symbol p) = Ok s'
    ∧ length (Py.chars s') = 9%nat
    ∧ (p ≠ q → check_winner s' (symbol q) = check_winner s (symbol q))
    ∧ (check_winner s (symbol p) = Ok true → check_winner s' (symbol p) = Ok true).
Proof.
  intros Hlen Ha. pose proof (available_actions_range s a Ha) as Hr.
  apply available_actions_spec in Ha as [_ Hl].
  exists (String.string_of_list_ascii (<[Z.to_nat a := mark_char p]> (Py.chars s))).
  assert (length (Py.chars (String.string_of_list_ascii
                              (<[Z.to_nat a := mark_char p]> (Py.chars s)))) = 9%nat)
    as Hlen' by (by rewrite chars_of_list, length_insert).
  pose proof (wins_in_range s Hlen) as Hw. rewrite Forall_forall in Hw.
  split_and!; [|done| |].
  - apply next_state_chars. by apply norm_index_nonneg.
  - intros Hpq. unfold symbol.
    assert (mark_char p ≠ mark_char q) as Hpq' by (by destruct p, q).
    assert (blank ≠ mark_char q) as Hbq by (by destruct q).
    assert (∀ line, line ∈ wins →
              line_filled (String.string_of_list_ascii
                             (<[Z.to_nat a := mark_char p]> (Py.chars s)))
                (mark_char q) line
              ↔ line_filled s (mark_char q) line) as Hiff.
    { intros line Hin.
      pose proof (line_filled_insert (Py.chars s) (Z.to_nat a) blank (mark_char q)
                    line Hl Hbq (mark_char p) Hpq') as Hi.
      rewrite string_of_chars in Hi. apply Hi. by apply Hw. }
    apply check_winner_ext; [done|done| |]; intros line Hin; by apply Hiff.
  - unfold symbol. apply check_winner_mono; [done|done|]. intros line Hin.
    pose proof (line_filled_insert_mono (Py.chars s) (Z.to_nat a) blank (mark_char p)
                  (mark_char p) line Hl) as Hi.
    rewrite string_of_chars in Hi. apply Hi; [by destruct p|by apply Hw].
Qed.
End WinnerMoreFacts.

(** ** More facts on the policies *)

Section PolicyMoreFacts.
Import Board QLearning.

Lemma SF_eq_eq_nlt (x y z : spec_float) :
  SFeqb x z = true → SFeqb y z = true → SFltb x y = false.
Proof. FloatOrder.sf_cases. Qed.

Lemma SF_le_nlt (x y : spec_float) : SFleb x y = true → SFltb y x = false.
Proof. FloatOrder.sf_cases. Qed.

Lemma float_eq_eq_nlt (x y z : float) :
  PrimFloat.eqb x z = true → PrimFloat.eqb y z = true → PrimFloat.ltb x y = false.
Proof. rewrite !FloatAxioms.eqb_spec, FloatAxioms.ltb_spec. apply SF_eq_eq_nlt. Qed.

Lemma float_le_nlt (x y : float) :
  PrimFloat.leb x y = true → PrimFloat.ltb y x = false.
Proof. rewrite FloatAxioms.leb_spec, FloatAxioms.ltb_spec. apply SF_le_nlt. Qed.

Lemma max_by_never_beaten {A} (key : A → float) (x : A) (l : list A) :
  Forall (fun y => PrimFloat.ltb (key x) (key y) = false) l → Py.max_by key x l = x.
Proof.
  unfold Py.max_by. induction 1 as [|y l Hy _ IH]; simpl; [done|]. by rewrite Hy.
Qed.

Lemma best_action_None (Q : Qtable) (s : string) :
  best_action Q s = None ↔ available_actions s = [].
Proof. unfold best_action. by destruct (available_actions s). Qed.
End PolicyMoreFacts.

(** ** The table during training *)

Section TableFacts.
Import Board QLearning.

Lemma table_grows_refl {V} (Q : PyDict.t (string * Z) V) : table_grows Q Q.
Proof. split_and!; auto. Qed.

Lemma table_grows_trans {V} (Q1 Q2 Q3 : PyDict.t (string * Z) V) :
  table_grows Q1 Q2 → table_grows Q2 Q3 → table_grows Q1 Q3.
Proof.
  intros (A1 & A2 & A3) (B1 & B2 & B3). split_and!; [auto|auto|].
  intros k Hk. destruct (B3 k Hk) as [H|H]; [auto|by right].
Qed.

Lemma table_grows_set {V} (Q : PyDict.t (string * Z) V) (k : string * Z) (v : V) :
  valid_key k → table_grows Q (PyDict.set Q k v).
Proof.
  intros Hk. split_and!.
  - intros k' Hk'. rewrite dict_get_set. by destruct (decide (k = k')).
  - apply dict_wf_set.
  - intros k' Hk'. rewrite dict_get_set in Hk'.
    destruct (decide (k = k')) as [<-|]; [by right|by left].
Qed.

Lemma table_grows_valid {V} (Q Q' : PyDict.t (string * Z) V) :
  table_grows Q Q' → valid_table Q → valid_table Q'.
Proof. intros (_ & _ & H3) HQ k Hk. destruct (H3 k Hk); auto. Qed.

Lemma update_q_value_grows (Q : Qtable) (s : string) (a : Z) (r : float) (s' : string) :
  valid_key (s, a) → table_grows Q (update_q_value Q s a r s').
Proof. intros Hk. unfold update_q_value. by apply table_grows_set. Qed.

Lemma update_q_value_present (Q : Qtable) (s : string) (a : Z) (r : float)
    (s' : string) :
  is_Some (PyDict.get (update_q_value Q s a r s') (s, a)).
Proof. unfold update_q_value. rewrite dict_get_set_eq. by eexists. Qed.

Lemma update_last_grows (Q : Qtable) (last : last_moves) (p : player) (r : float)
    (s' : string) :
  valid_last last → table_grows Q (update_last Q last p r s').
Proof.
  intros Hl. unfold update_last. destruct (last_of last p) as [[ls la]|] eqn:E.
  - apply update_q_value_grows. by apply (Hl p).
  - apply table_grows_refl.
Qed.

Lemma valid_last_set (last : last_moves) (p : player) (m : string * Z) :
  valid_last last → valid_key m → valid_last (set_last last p m).
Proof.
  intros Hl Hm q m'. destruct p, q; simpl; try (intros [= <-]; done); apply (Hl PX) || apply (Hl PO).
Qed.

Lemma legal_valid_key (s : string) (a : Z) :
  length (Py.chars s) = 9%nat → a ∈ available_actions s → valid_key (s, a).
Proof.
  intros Hlen Ha. apply available_actions_range in Ha. rewrite Hlen in Ha.
  split; simpl; [done|lia].
Qed.

(** What a game does to the table. *)
Lemma play_loop_table (fuel : nat) (rand : nat → float * nat) (epsilon : float) :
  ∀ (t : nat) (Q : Qtable) (state : string) (current other : player) (last : last_moves),
    length (Py.chars state) = 9%nat →
    (1 ≤ count_cells blank state ≤ fuel)%nat →
    valid_last last →
    ∃ r Q', play_loop fuel rand epsilon t Q state current other last = Some (Ok (r, Q'))
          ∧ (r = 1 ∨ r = -1 ∨ r = 0)
          ∧ table_grows Q Q'
          ∧ ∃ k, is_Some (PyDict.get Q' k).
Proof.
  induction fuel as [|fuel IH]; intros t Q state current other last Hlen Hcnt Hlast;
    [lia|].
  simpl.
  destruct (epsilon_greedy_action Q state epsilon (rand t).1 (rand t).2) as [action|] eqn:Ea.
  2:{ apply epsilon_greedy_action_None, available_actions_count in Ea. lia. }
  apply epsilon_greedy_action_in in Ea.
  pose proof (legal_valid_key state action Hlen Ea) as Hkey.
  destruct (next_state_fills state action current Ea) as (state' & -> & Hlen' & Hfill).
  rewrite Hlen in Hlen'.
  destruct (check_lines_spec state' (symbol current) wins (wins_in_range state' Hlen'))
    as (b & Hb & _).
  unfold check_winner. rewrite Hb.
  pose proof (update_last_grows Q last current 0%float state Hlast) as G1.
  destruct b.
  - eexists _, _. split; [done|]. split; [destruct (decide _); auto|]. split.
    + eapply table_grows_trans; [exact G1|].
      eapply table_grows_trans; [by apply update_q_value_grows|].
      by apply update_last_grows.
    + exists (state, action).
      destruct (update_last_grows
                  (update_q_value (update_last Q last current 0 state) state action
                     REWARD_WIN state') last other REWARD_LOSE state Hlast) as (H1 & _).
      apply H1, update_q_value_present.
  - destruct (is_draw state') eqn:Hd.
    + eexists _, _. split; [done|]. split; [auto|]. split.
      * eapply table_grows_trans; [exact G1|]. by apply update_q_value_grows.
      * exists (state, action). apply update_q_value_present.
    + destruct (IH (S t) (update_last Q last current 0 state) state' other current
                  (set_last last current (state, action)))
        as (r & Q' & Hr & Hres & Hg & Hne).
      * done.
      * split; [|lia]. destruct (count_cells blank state') eqn:Hc; [|lia].
        apply is_draw_count in Hc. congruence.
      * by apply valid_last_set.
      * exists r, Q'. split_and!; [done|done| |done].
        eapply table_grows_trans; [exact G1|exact Hg].
Qed.
End TableFacts.

(** ** The length of a game *)

Section GameLengthFacts.
Import Board QLearning.

Lemma filter_insert_other (l : list ascii) (n : nat) (c c' m : ascii) :
  l !! n = Some c → c ≠ m → c' ≠ m →
  length (filter (fun x => x = m) (<[n := c']> l)) = length (filter (fun x => x = m) l).
Proof.
  intros Hl Hc Hc'. revert n Hl. induction l as [|x l IH]; intros [|n] Hl; simpl in *;
    try done.
  - injection Hl as ->. by rewrite !filter_cons, !decide_False.
  - rewrite !filter_cons. destruct (decide (x = m)); simpl; by rewrite (IH n).
Qed.

Lemma filter_insert_new (l : list ascii) (n : nat) (c m : ascii) :
  l !! n = Some c → c ≠ m →
  length (filter (fun x => x = m) (<[n := m]> l))
  = S (length (filter (fun x => x = m) l)).
Proof.
  intros Hl Hc. revert n Hl. induction l as [|x l IH]; intros [|n] Hl; simpl in *;
    try done.
  - injection Hl as ->. by rewrite !filter_cons, decide_True, decide_False.
  - rewrite !filter_cons. destruct (decide (x = m)); simpl; by rewrite (IH n).
Qed.

(** A move adds one mark of the mover and none of the other player. *)
Lemma next_state_counts (s : string) (a : Z) (p q : player) :
  a ∈ available_actions s → p ≠ q →
  ∃ s', next_state s a (symbol p) = Ok s'
    ∧ length (Py.chars s') = length (Py.chars s)
    ∧ S (count_cells blank s') = count_cells blank s
    ∧ count_cells (mark_char p) s' = S (count_cells (mark_char p) s)
    ∧ count_cells (mark_char q) s' = count_cells (mark_char q) s.
Proof.
  intros Ha Hpq. pose proof (available_actions_range s a Ha) as Hr.
  apply available_actions_spec in Ha as [_ Hl].
  destruct (next_state_writes s a (mark_char p) Hr) as (s' & Hs' & Hc & Hlen & _).
  exists s'. unfold count_cells. rewrite Hc. split_and!; [done|by rewrite length_insert| | |].
  - apply filter_insert_blank; [done|apply mark_not_blank].
  - apply filter_insert_new with blank; [done|]. by destruct p.
  - apply filter_insert_other with blank; [done| |]; by destruct p, q.
Qed.

Lemma check_winner_few_marks (s : string) (m : ascii) :
  length (Py.chars s) = 9%nat → (count_cells m s < 3)%nat →
  check_winner s (String m EmptyString) = Ok false.
Proof.
  intros Hlen Hcnt. unfold check_winner.
  destruct (check_lines_spec s (String m EmptyString) wins (wins_in_range s Hlen))
    as (b & -> & Hiff).
  f_equal. destruct b; [exfalso|done].
  destruct Hiff as [Hex _]. destruct (Hex eq_refl) as (line & m' & Hin & Hf & [= ->]).
  destruct Hf as (H1 & H2 & H3).
  pose proof (wins_in_range s Hlen) as Hrange.
  rewrite Forall_forall in Hrange. destruct (Hrange line Hin) as (R1 & R2 & R3).
  apply str_getitem_nonneg in H1, H2, H3; try done.
  unfold count_cells in Hcnt.
  destruct (Py.chars s) as [|c0 [|c1 [|c2 [|c3 [|c4 [|c5 [|c6 [|c7 [|c8 [|]]]]]]]]]];
    try discriminate Hlen.
  pose proof (filter_three_of_nine _ _ _ _ _ _ _ _ _ _ line Hin H1 H2 H3). lia.
Qed.

Lemma other_player (p q : player) : p ≠ q → q ≠ p.
Proof. auto. Qed.

(** While fewer than five marks would be on the board after the move, every
    iteration of the loop of [play_one_game] goes on to the next one. *)
Lemma play_loop_early (fuel : nat) (rand : nat → float * nat) (epsilon : float) :
  ∀ (t : nat) (Q : Qtable) (state : string) (current other : player) (last : last_moves),
    current ≠ other →
    length (Py.chars state) = 9%nat →
    (count_cells (mark_char current) state ≤ count_cells (mark_char other) state)%nat →
    (count_cells (mark_char other) state ≤ S (count_cells (mark_char current) state))%nat →
    (count_cells (mark_char current) state + count_cells (mark_char other) state
     + count_cells blank state = 9)%nat →
    (count_cells (mark_char current) state + count_cells (mark_char other) state
     + fuel ≤ 4)%nat →
    play_loop fuel rand epsilon t Q state current other last = None.
Proof.
  induction fuel as [|fuel IH];
    intros t Q state current other last Hne Hlen Hle1 Hle2 Hsum Hfuel; [done|].
  simpl.
  destruct (epsilon_greedy_action Q state epsilon (rand t).1 (rand t).2) as [action|] eqn:Ea.
  2:{ apply epsilon_greedy_action_None, available_actions_count in Ea. lia. }
  apply epsilon_greedy_action_in in Ea.
  destruct (next_state_counts state action current other Ea Hne)
    as (state' & -> & Hlen' & Hb & Hc & Ho).
  rewrite Hlen in Hlen'.
  unfold symbol at 1. rewrite check_winner_few_marks by first [done|lia].
  destruct (is_draw state') eqn:Hd.
  { apply is_draw_count in Hd. lia. }
  apply IH; first [done|lia|by apply other_player].
Qed.
End GameLengthFacts.

(** ** The training loop and the saved table *)

Section TrainingFacts.
Import Board QLearning Persist Training.

Lemma play_one_game_table (fuel : nat) (rand : nat → float * nat) (epsilon : float)
    (Q : Qtable) :
  (9 ≤ fuel)%nat →
  ∃ r Q', play_one_game fuel rand epsilon Q = Some (Ok (r, Q'))
        ∧ (r = 1 ∨ r = -1 ∨ r = 0)
        ∧ table_grows Q Q'
        ∧ ∃ k, is_Some (PyDict.get Q' k).
Proof.
  intros Hfuel. unfold play_one_game. apply play_loop_table; [reflexivity| |].
  - change (count_cells blank initial_state) with 9%nat. lia.
  - intros p m. by destruct p.
Qed.

Lemma count_result_total (t : tally) (r : Z) :
  tally_total (count_result t r) = tally_total t + 1 ∧ tally_le t (count_result t r).
Proof.
  unfold count_result, tally_total, tally_le.
  destruct (decide (r = 1)); [simpl; lia|]. destruct (decide (r = -1)); simpl; lia.
Qed.

Lemma episodes_spec (pow : float → float → float) (n : nat) :
  ∀ (fuel : nat) (rand : nat → nat → float * nat) (episode : nat) (epsilon : float)
    (Q : Qtable) (t : tally),
    (9 ≤ fuel)%nat →
    ∃ t' Q', episodes pow n fuel rand episode epsilon Q t
             = Some (Ok (t', Nat.iter n (Schedule.next_epsilon pow) epsilon, Q'))
           ∧ tally_total t' = tally_total t + Z.of_nat n
           ∧ tally_le t t'
           ∧ table_grows Q Q'.
Proof.
  induction n as [|n IH]; intros fuel rand episode epsilon Q t Hfuel.
  - exists t, Q. split_and!; [done|lia|unfold tally_le; lia|apply table_grows_refl].
  - cbn [episodes].
    destruct (play_one_game_table fuel (rand episode) epsilon Q Hfuel)
      as (r & Q1 & -> & _ & G1 & _).
    destruct (IH fuel rand (S episode) (Schedule.next_epsilon pow epsilon) Q1
                (count_result t r) Hfuel) as (t' & Q' & -> & Ht & Hle & G2).
    destruct (count_result_total t r) as [Hc Hcle].
    exists t', Q'. split_and!.
    + by rewrite Nat.iter_succ_r.
    + lia.
    + unfold tally_le in *. lia.
    + by eapply table_grows_trans.
Qed.

Lemma epsilon_at_iter (pow : float → float → float) (n : nat) :
  Schedule.epsilon_at pow n = Nat.iter n (Schedule.next_epsilon pow) EPSILON_START.
Proof. induction n as [|n IH]; [done|]. simpl. by rewrite IH. Qed.

Lemma of_Qtable_get (Q : Qtable) (k : string * Z) :
  PyDict.get (of_Qtable Q) k = JFloat <$> PyDict.get Q k.
Proof.
  unfold of_Qtable. induction Q as [|[k' v] Q IH]; simpl; [done|].
  destruct (decide (k' = k)); [done|exact IH].
Qed.

Lemma of_Qtable_keys (Q : Qtable) : PyDict.keys (of_Qtable Q) = PyDict.keys Q.
Proof.
  unfold of_Qtable, PyDict.keys. rewrite <- list_fmap_compose.
  by apply list_fmap_ext.
Qed.

(** Saving and loading back, for a table with unique valid keys. *)
Lemma round_trip_lookup (Q : Ptable) :
  PyDict.wf Q → valid_table Q →
  ∃ Q', load_q_table (save_q_table Q) [] = (Q', None)
      ∧ PyDict.wf Q'
      ∧ ∀ k, PyDict.get Q' k = PyDict.get Q k.
Proof.
  intros Hwf Hkeys.
  destruct (save_items_perm Q []) as [Hok Hperm].
  - constructor.
  - apply Forall_forall. intros [[s a] v] Hin. simpl.
    destruct (Hkeys (s, a)) as [_ Ha]; [|exact Ha].
    rewrite (dict_in_wf_get Q (s, a) v Hwf Hin). by eexists.
  - exact Hwf.
  - simpl in Hperm. unfold save_q_table, to_json, load_q_table.
    simpl items. cbv iota beta. rewrite load_states_fold by done.
    eexists. split; [done|]. split.
    + apply wf_foldl_set. constructor.
    + intros k. rewrite get_foldl_set.
      * rewrite (get_perm _ Q k Hperm).
        -- by destruct (PyDict.get Q k).
        -- unfold PyDict.keys. rewrite Hperm. exact Hwf.
      * unfold PyDict.keys. rewrite Hperm. exact Hwf.
Qed.

Lemma trained_round_trip (Q : Qtable) :
  PyDict.wf Q → valid_table Q →
  ∃ P, load_q_table (save_q_table (of_Qtable Q)) [] = (P, None)
     ∧ ∀ k, PyDict.get P k = JFloat <$> PyDict.get Q k.
Proof.
  intros Hwf Hvalid. destruct (round_trip_lookup (of_Qtable Q)) as (P & HP & _ & Hget).
  - unfold PyDict.wf. by rewrite of_Qtable_keys.
  - intros k Hk. apply Hvalid. rewrite of_Qtable_get in Hk.
    destruct (PyDict.get Q k); [by eexists|by destruct Hk].
  - exists P. split; [done|]. intros k. by rewrite Hget, of_Qtable_get.
Qed.
End TrainingFacts.

(** ** More facts on loading and saving *)

Section PersistMoreFacts.
Import Persist.

Lemma get_foldl_set_last {K V} `{EqDecision K} (l : list (K * V)) (d : PyDict.t K V)
    (k : K) :
  PyDict.get (foldl PyDict.set_entry d l) k
  = match PyDict.get (reverse l) k with
    | Some v => Some v
    | None => PyDict.get d k
    end.
Proof.
  revert d. induction l as [|[k1 v1] l IH] using rev_ind; intros d; [done|].
  rewrite foldl_app, reverse_app. simpl. unfold PyDict.set_entry at 1. simpl.
  rewrite dict_get_set. destruct (decide (k1 = k)) as [->|Hne]; [done|apply IH].
Qed.

Lemma load_states_doc (Q : Ptable) (d : list (string * json)) :
  Forall state_ok d →
  load_states Q d = (foldl PyDict.set_entry Q (doc_entries d), None).
Proof.
  unfold doc_entries. revert Q. induction d as [|[s v] d IH]; intros Q; [done|].
  intros [(inner & Hv & Hp) Hd]%Forall_cons. simpl in Hv. subst v. simpl.
  rewrite load_actions_fold by done. rewrite IH by done. by rewrite foldl_app.
Qed.

Lemma load_actions_keeps (Q : Ptable) (s : string) (acts : list (string * json)) :
  (∀ k, is_Some (PyDict.get Q k) → is_Some (PyDict.get (load_actions Q s acts).1 k))
  ∧ (PyDict.wf Q → PyDict.wf (load_actions Q s acts).1).
Proof.
  revert Q. induction acts as [|[k v] acts IH]; intros Q; simpl; [done|].
  destruct (py_int k) as [a|]; [|done].
  destruct (IH (PyDict.set Q (s, a) v)) as [IH1 IH2]. split.
  - intros k' Hk'. apply IH1. rewrite dict_get_set. by destruct (decide _).
  - intros Hwf. by apply IH2, dict_wf_set.
Qed.

Lemma load_states_keeps (Q : Ptable) (d : list (string * json)) :
  (∀ k, is_Some (PyDict.get Q k) → is_Some (PyDict.get (load_states Q d).1 k))
  ∧ (PyDict.wf Q → PyDict.wf (load_states Q d).1).
Proof.
  revert Q. induction d as [|[s v] d IH]; intros Q; simpl; [done|].
  destruct (items v) as [acts|e]; [|done].
  destruct (load_actions_keeps Q s acts) as [A1 A2].
  destruct (load_actions Q s acts) as [Q' [e|]]; simpl in *; [done|].
  destruct (IH Q') as [IH1 IH2]. split; auto.
Qed.

Lemma dict_set_Forall {K V} `{EqDecision K} (P : K * V → Prop) (d : PyDict.t K V)
    (k : K) (v : V) :
  Forall P d → P (k, v) → Forall P (PyDict.set d k v).
Proof.
  intros Hd Hkv. induction Hd as [|[k' v'] d Hx Hd IH]; simpl.
  - by apply Forall_singleton.
  - destruct (decide (k' = k)) as [->|]; apply Forall_cons; auto.
Qed.

Lemma save_items_format (E : list (string * Z * json)) :
  ∀ D : PyDict.t string (PyDict.t string json),
    Forall spec_state D →
    Forall (fun e : string * Z * json =>
              valid_key e.1 ∧ spec_numeric e.2 = true) E →
    Forall spec_state (save_items D E).
Proof.
  induction E as [|[[s a] v] E IH]; intros D HD HE; [done|].
  apply Forall_cons in HE as [[[Hs Ha] Hv] HE]. simpl in Hs, Ha, Hv.
  rewrite save_items_cons. apply IH; [|done]. simpl.
  assert (spec_item (py_str a, v)) as Hitem.
  { split; [|done]. simpl. unfold spec_action_key.
    assert (a = 0 ∨ a = 1 ∨ a = 2 ∨ a = 3 ∨ a = 4 ∨ a = 5 ∨ a = 6 ∨ a = 7 ∨ a = 8)
      as Hcases by lia.
    repeat destruct Hcases as [->|Hcases]; try subst a; reflexivity. }
  destruct (PyDict.get D s) as [inner|] eqn:E1.
  - rewrite E1. simpl. apply dict_set_Forall; [done|].
    split; [done|]. simpl. apply dict_set_Forall; [|done].
    apply dict_get_Some_in in E1. rewrite Forall_forall in HD.
    by destruct (HD _ E1).
  - rewrite dict_get_set_eq. simpl. apply dict_set_Forall.
    + apply dict_set_Forall; [done|]. by split.
    + split; [done|]. simpl. by apply Forall_singleton.
Qed.

Lemma spec_state_format (D : PyDict.t string (PyDict.t string json)) :
  Forall spec_state D → spec_format_ok (to_json D) = true.
Proof.
  intros HD. unfold to_json, spec_format_ok. rewrite forallb_fmap.
  apply forallb_Forall_true. eapply Forall_impl; [exact HD|].
  intros [s inner] [Hs Hi]. simpl in *. apply andb_true_iff. split.
  - by apply bool_decide_eq_true.
  - apply forallb_Forall_true. eapply Forall_impl; [exact Hi|].
    intros [k v] [Hk Hv]. simpl in *. by rewrite Hk, Hv.
Qed.

Lemma spec_state_loadable (D : PyDict.t string (PyDict.t string json)) :
  Forall spec_state D → loadable (Document (to_json D)).
Proof.
  intros HD. unfold to_json, loadable. apply Forall_fmap.
  eapply Forall_impl; [exact HD|]. intros [s inner] [_ Hi]. simpl in *.
  exists inner. split; [done|]. eapply Forall_impl; [exact Hi|].
  intros [k v] [Hk _]. simpl in *. unfold spec_action_key in Hk.
  apply bool_decide_eq_true in Hk.
  repeat (apply elem_of_cons in Hk as [->|Hk]; [by eexists|]).
  by apply elem_of_nil in Hk.
Qed.
End PersistMoreFacts.

(** ** The window: cells and boards *)

Section UIBoardFacts.
Import Board UI.

Lemma get_cell_index_None (mx my : Z) :
  get_cell_index mx my = None ↔ mx < 60 ∨ 540 < mx ∨ my < 60 ∨ 540 < my.
Proof.
  unfold get_cell_index.
  change LEFT_MARGIN with 60. change TOP_MARGIN with 60. change BOARD_SIZE with 480.
  change (60 + 480) with 540.
  destruct (mx <? 60) eqn:E1, (540 <? mx) eqn:E2, (my <? 60) eqn:E3, (540 <? my) eqn:E4;
    simpl; rewrite ?Z.ltb_lt, ?Z.ltb_ge in *; split; (done || lia).
Qed.

Lemma get_cell_index_Some (mx my : Z) :
  60 ≤ mx ≤ 540 → 60 ≤ my ≤ 540 →
  get_cell_index mx my = Some ((my - 60) / 160 * 3 + (mx - 60) / 160).
Proof.
  intros Hx Hy. unfold get_cell_index.
  change LEFT_MARGIN with 60. change TOP_MARGIN with 60. change BOARD_SIZE with 480.
  change CELL_SIZE with 160. change (60 + 480) with 540.
  replace (mx <? 60) with false by (symmetry; apply Z.ltb_ge; lia).
  replace (540 <? mx) with false by (symmetry; apply Z.ltb_ge; lia).
  replace (my <? 60) with false by (symmetry; apply Z.ltb_ge; lia).
  replace (540 <? my) with false by (symmetry; apply Z.ltb_ge; lia).
  done.
Qed.

Lemma cell_div (x : Z) :
  60 ≤ x ≤ 540 →
  0 ≤ (x - 60) / 160 ≤ 3
  ∧ 60 + 160 * ((x - 60) / 160) ≤ x ≤ 60 + 160 * ((x - 60) / 160) + 159
  ∧ ((x - 60) / 160 = 3 ↔ x = 540).
Proof.
  intros Hx. pose proof (Z.div_mod (x - 60) 160 ltac:(lia)) as Hdm.
  pose proof (Z.mod_pos_bound (x - 60) 160 ltac:(lia)) as Hm. lia.
Qed.

Lemma good_board_chars (b : list string) :
  good_board b →
  ∃ cs, b = cell_of_char <$> cs ∧ length cs = 9%nat
      ∧ Forall (fun c => c = blank ∨ c = mark_char PX ∨ c = mark_char PO) cs.
Proof.
  intros [Hlen Hall]. revert Hlen. generalize 9%nat.
  induction Hall as [|c b Hc Hall IH]; intros n Hlen.
  - exists []. by split_and!.
  - destruct n as [|n]; [done|]. injection Hlen as Hlen.
    destruct (IH n Hlen) as (cs & -> & Hcs & HF).
    destruct Hc as [Hc|[Hc|Hc]]; subst c;
      [exists (blank :: cs)|exists (mark_char PX :: cs)|exists (mark_char PO :: cs)];
      (split_and!; [done|simpl; by rewrite Hcs|apply Forall_cons; split; auto]).
Qed.

Lemma chars_good_board (cs : list ascii) :
  length cs = 9%nat →
  Forall (fun c => c = blank ∨ c = mark_char PX ∨ c = mark_char PO) cs →
  good_board (cell_of_char <$> cs).
Proof.
  intros Hlen HF. split; [by rewrite length_fmap|]. apply Forall_fmap.
  eapply Forall_impl; [exact HF|]. intros c [Hc|[Hc|Hc]]; subst c; simpl; auto.
Qed.

Lemma join_cells (cs : list ascii) :
  Py.join (cell_of_char <$> cs) = String.string_of_list_ascii cs.
Proof. apply join_singletons. Qed.

Lemma chars_join_cells (cs : list ascii) : Py.chars (Py.join (cell_of_char <$> cs)) = cs.
Proof. by rewrite join_cells, chars_of_list. Qed.

(** Reading a cell of the window's board against the legal actions of its
    state string. *)
Lemma list_getitem_cells (cs : list ascii) (idx : Z) :
  0 ≤ idx →
  (∃ cell, list_getitem (cell_of_char <$> cs) idx = Ok cell ∧ cell = " "%string)
  ↔ idx ∈ available_actions (Py.join (cell_of_char <$> cs)).
Proof.
  intros Hidx. rewrite available_actions_spec, chars_join_cells.
  unfold list_getitem, Py.norm_index. rewrite length_fmap.
  destruct (decide (0 ≤ idx < Z.of_nat (length cs))) as [Hr|Hr].
  - rewrite list_lookup_fmap. destruct (cs !! Z.to_nat idx) as [c|] eqn:E; simpl.
    + split.
      * intros (cell & [= <-] & [= ->]). done.
      * intros [_ [= ->]]. by eexists.
    + split; [by intros (? & ? & _)|by intros [_ ?]].
  - rewrite decide_False by lia. split; [by intros (? & ? & _)|].
    intros [_ Hl]. apply lookup_lt_Some in Hl. lia.
Qed.

Lemma list_getitem_range {A} (l : list A) (idx : Z) :
  0 ≤ idx →
  (Z.of_nat (length l) ≤ idx → list_getitem l idx = Raise IndexError)
  ∧ (idx < Z.of_nat (length l) → ∃ x, list_getitem l idx = Ok x).
Proof.
  intros Hidx. unfold list_getitem, Py.norm_index. split.
  - intros Hge. by rewrite !decide_False by lia.
  - intros Hlt. rewrite decide_True by lia.
    destruct (lookup_lt_is_Some_2 l (Z.to_nat idx)) as [x ->]; [lia|]. by eexists.
Qed.

(** Writing a mark into a legal cell of the window's board is the move
    [next_state] makes on the state string. *)
Lemma setitem_cells (cs : list ascii) (idx : Z) (p : player) :
  0 ≤ idx < Z.of_nat (length cs) →
  Py.list_setitem (cell_of_char <$> cs) idx (symbol p)
  = Ok (cell_of_char <$> <[Z.to_nat idx := mark_char p]> cs)
  ∧ next_state (Py.join (cell_of_char <$> cs)) idx (symbol p)
    = Ok (Py.join (cell_of_char <$> <[Z.to_nat idx := mark_char p]> cs)).
Proof.
  intros Hr. split.
  - unfold Py.list_setitem. rewrite length_fmap, norm_index_nonneg by done.
    by rewrite list_fmap_insert.
  - rewrite !join_cells. unfold symbol. rewrite (next_state_chars _ idx _ (Z.to_nat idx)).
    + by rewrite chars_of_list.
    + rewrite chars_of_list. by apply norm_index_nonneg.
Qed.
End UIBoardFacts.

(** ** The window: moves *)

Section UIMoveFacts.
Import Board UI.

Lemma choose_best_action_in (Q : QLearning.Qtable) (s : string) (k : nat) (a : Z) :
  Advisor.choose_best_action Q s k = Some a → a ∈ available_actions s.
Proof.
  rewrite choose_best_action_unfold.
  destruct (available_actions s) as [|a0 rest] eqn:E; [done|].
  destruct (forallb _ _).
  - destruct (random_choice_in k (a0 :: rest)) as (x & Hx & Hin); [done|]. congruence.
  - intros [= <-]. apply max_by_in.
Qed.

Lemma choose_best_action_None (Q : QLearning.Qtable) (s : string) (k : nat) :
  Advisor.choose_best_action Q s k = None ↔ available_actions s = [].
Proof.
  rewrite choose_best_action_unfold.
  destruct (available_actions s) as [|a0 rest] eqn:E; [done|]. split; [|done].
  destruct (forallb _ _); [|done].
  destruct (random_choice_in k (a0 :: rest)) as (x & -> & _); done.
Qed.

Lemma keeps_marks_refl (b : list string) : keeps_marks b b.
Proof. by intros n c. Qed.

Lemma keeps_marks_trans (b1 b2 b3 : list string) :
  keeps_marks b1 b2 → keeps_marks b2 b3 → keeps_marks b1 b3.
Proof. intros H1 H2 n c Hn Hc. apply H2; [|done]. by apply H1. Qed.

Lemma check_winner_total (s sym : string) :
  length (Py.chars s) = 9%nat → ∃ b, check_winner s sym = Ok b.
Proof.
  intros Hlen. unfold check_winner.
  destruct (check_lines_spec s sym wins (wins_in_range s Hlen)) as (b & -> & _).
  by exists b.
Qed.

(** A mark placed by [p] on a legal cell of a good board. *)
Lemma place_mark (b : list string) (idx : Z) (p q : player) :
  good_board b → p ≠ q → idx ∈ available_actions (Py.join b) →
  ∃ b', Py.list_setitem b idx (symbol p) = Ok b'
      ∧ good_board b'
      ∧ keeps_marks b b'
      ∧ length (Py.chars (Py.join b')) = 9%nat
      ∧ check_winner (Py.join b') (symbol q) = check_winner (Py.join b) (symbol q)
      ∧ S (count_cells blank (Py.join b')) = count_cells blank (Py.join b)
      ∧ count_cells (mark_char p) (Py.join b') = S (count_cells (mark_char p) (Py.join b))
      ∧ count_cells (mark_char q) (Py.join b') = count_cells (mark_char q) (Py.join b).
Proof.
  intros Hb Hpq Hidx. destruct (good_board_chars b Hb) as (cs & -> & Hlen & HF).
  assert (length (Py.chars (Py.join (cell_of_char <$> cs))) = 9%nat) as Hlen9
    by (by rewrite chars_join_cells).
  pose proof (available_actions_range _ _ Hidx) as Hr. rewrite chars_join_cells in Hr.
  destruct (setitem_cells cs idx p Hr) as [Hset Hnext].
  exists (cell_of_char <$> <[Z.to_nat idx := mark_char p]> cs).
  destruct (move_winner _ idx p q Hlen9 Hidx) as (s1 & Hs1 & _ & Hw & _).
  destruct (next_state_counts _ idx p q Hidx Hpq) as (s2 & Hs2 & _ & Hc1 & Hc2 & Hc3).
  rewrite Hnext in Hs1, Hs2. injection Hs1 as <-. injection Hs2 as <-.
  split_and!; try done.
  - apply chars_good_board; [by rewrite length_insert|].
    apply Forall_insert; [done|]. destruct p; auto.
  - intros n c Hn Hc. rewrite list_lookup_fmap in Hn |- *.
    destruct (decide (n = Z.to_nat idx)) as [->|Hne];
      [|by rewrite list_lookup_insert_ne].
    exfalso. apply available_actions_spec in Hidx as [_ Hl].
    rewrite chars_join_cells in Hl. rewrite Hl in Hn. simpl in Hn.
    injection Hn as <-. by apply Hc.
  - by rewrite chars_join_cells, length_insert.
  - by apply Hw.
Qed.

Lemma good_board_length (b : list string) :
  good_board b → length (Py.chars (Py.join b)) = 9%nat.
Proof.
  intros Hb. destruct (good_board_chars b Hb) as (cs & -> & Hlen & _).
  by rewrite chars_join_cells.
Qed.

(** The user's move on a legal cell, the game not being over. *)
Lemma user_move_spec (g : game) (idx : Z) :
  ui_invariant g → game_over g = false → idx ∈ available_actions (state_of g) →
  ∃ g', user_move g idx = Ok g'
      ∧ keeps_marks (board g) (board g')
      ∧ running g' = running g
      ∧ ((ui_invariant g' ∧ game_over g' = true) ∨ ai_to_move g').
Proof.
  intros (Hb & Hcur & Hrest) Hover Hidx. rewrite Hover in Hrest.
  destruct Hrest as [(HwX & HwO & Hdraw) Hcnt]. unfold state_of in *.
  destruct (place_mark (board g) idx PX PO Hb ltac:(done) Hidx)
    as (b' & Hset & Hb' & Hkeep & Hlen' & Hw & Hc0 & Hc1 & Hc2).
  unfold user_move. change user_symbol with (symbol PX). rewrite Hset. simpl.
  destruct (check_winner_total (Py.join b') (symbol PX) Hlen') as [won Hwon].
  rewrite Hwon. simpl. change (symbol PO) with "O"%string in Hw.
  change (symbol PX) with "X"%string in Hwon.
  change (mark_char PX) with "X"%char in Hc1. change (mark_char PO) with "O"%char in Hc2.
  destruct won.
  - eexists. split; [done|]. split_and!; [done|done|]. left. split; [|done].
    split_and!; [done|done|]. simpl. left. unfold state_of. simpl.
    split_and!; [done|done|congruence].
  - destruct (is_draw (Py.join b')) eqn:Hd.
    + eexists. split; [done|]. split_and!; [done|done|]. left. split; [|done].
      split_and!; [done|done|]. simpl. right. right. unfold state_of. simpl.
      split_and!; [done|done|done|congruence].
    + eexists. split; [done|]. split_and!; [done|done|]. right.
      unfold ai_to_move, live, state_of. simpl.
      split_and!; [done|done|done|done|congruence|done|lia].
Qed.

(** The reply of the program. *)
Lemma ai_turn_spec (Q : QLearning.Qtable) (k : nat) (g : game) :
  (ui_invariant g → ai_turn Q k g = Ok g)
  ∧ (ai_to_move g →
     ∃ g', ai_turn Q k g = Ok g'
         ∧ keeps_marks (board g) (board g')
         ∧ running g' = running g
         ∧ ui_invariant g').
Proof.
  split.
  - intros (_ & Hcur & _). unfold ai_turn. rewrite Hcur.
    by rewrite andb_false_r.
  - intros (Hb & Hcur & Hover & (HwX & HwO & Hdraw) & Hcnt). unfold state_of in *.
    unfold ai_turn. rewrite Hcur, Hover. simpl.
    destruct (Advisor.choose_best_action Q (Py.join (board g)) k) as [ai_move|] eqn:Ec.
    2:{ apply choose_best_action_None, available_actions_count, is_draw_count in Ec.
        congruence. }
    apply choose_best_action_in in Ec.
    destruct (place_mark (board g) ai_move PO PX Hb ltac:(done) Ec)
      as (b' & Hset & Hb' & Hkeep & Hlen' & Hw & Hc0 & Hc1 & Hc2).
    change ai_symbol with (symbol PO). rewrite Hset. simpl.
    destruct (check_winner_total (Py.join b') (symbol PO) Hlen') as [won Hwon].
    rewrite Hwon. simpl. change (symbol PX) with "X"%string in Hw.
    change (symbol PO) with "O"%string in Hwon.
    change (mark_char PO) with "O"%char in Hc1. change (mark_char PX) with "X"%char in Hc2.
    destruct won.
    + eexists. split; [done|]. split_and!; [done|done|].
      split_and!; [done|done|]. simpl. right. left. unfold state_of. simpl.
      split_and!; [done|done|congruence].
    + destruct (is_draw (Py.join b')) eqn:Hd.
      * eexists. split; [done|]. split_and!; [done|done|].
        split_and!; [done|done|]. simpl. right. right. unfold state_of. simpl.
        split_and!; [done|done|congruence|done].
      * eexists. split; [done|]. split_and!; [done|done|].
        split_and!; [done|done|]. simpl. unfold live, state_of. simpl.
        split_and!; [congruence|done|done|lia].
Qed.
End UIMoveFacts.

(** ** The window: frames *)

Section UIFrameFacts.
Import Board UI.

Lemma get_cell_index_bounds (mx my idx : Z) :
  get_cell_index mx my = Some idx →
  60 ≤ mx ≤ 540 ∧ 60 ≤ my ≤ 540
  ∧ idx = (my - 60) / 160 * 3 + (mx - 60) / 160 ∧ 0 ≤ idx ≤ 12.
Proof.
  intros H.
  assert (60 ≤ mx ≤ 540 ∧ 60 ≤ my ≤ 540) as [Hx Hy].
  { destruct (decide (mx < 60 ∨ 540 < mx ∨ my < 60 ∨ 540 < my)) as [Hout|Hin]; [|lia].
    apply get_cell_index_None in Hout. congruence. }
  rewrite get_cell_index_Some in H by done. injection H as <-.
  pose proof (cell_div mx Hx). pose proof (cell_div my Hy). lia.
Qed.

Lemma ui_invariant_running (g : game) (r : bool) :
  ui_invariant g →
  ui_invariant (Game (board g) (current_symbol g) r (game_over g) (result_message g)).
Proof. by destruct g. Qed.

Lemma ai_to_move_running (g : game) (r : bool) :
  ai_to_move g →
  ai_to_move (Game (board g) (current_symbol g) r (game_over g) (result_message g)).
Proof. by destruct g. Qed.

Lemma ui_invariant_reset (r : bool) : ui_invariant (Game empty_board "X" r false "").
Proof.
  split_and!; [|done|].
  - split; [done|]. repeat (apply Forall_cons; split; [by left|]). apply Forall_nil_2.
  - simpl. split; [|done]. by split_and!.
Qed.

(** The events of a frame. *)
Lemma handle_events_spec (evs : list event) :
  ∀ g, ui_invariant g ∨ ai_to_move g →
    (∀ g', handle_events g evs = Ok g' →
           (ui_invariant g' ∨ ai_to_move g') ∧ keeps_marks (board g) (board g'))
    ∧ (Forall click_in_cells evs → ∃ g', handle_events g evs = Ok g').
Proof.
  induction evs as [|ev evs IH]; intros g Hg.
  { split; [|by eexists]. intros g' [= <-]. split; [done|apply keeps_marks_refl]. }
  destruct ev as [|mx my|].
  - simpl. split; [|by eexists]. intros g' [= <-]. split; [|apply keeps_marks_refl].
    destruct Hg as [Hg|Hg]; [left; by apply ui_invariant_running
                            |right; by apply ai_to_move_running].
  - cbn [handle_events].
    destruct (negb (game_over g) && bool_decide (current_symbol g = user_symbol)) eqn:Ec.
    2:{ destruct (IH g Hg) as [I1 I2]. split; [exact I1|].
        intros [_ Hevs]%Forall_cons. by apply I2. }
    apply andb_true_iff in Ec as [Hover Hcur]. apply negb_true_iff in Hover.
    apply bool_decide_eq_true in Hcur. unfold user_symbol in Hcur.
    destruct Hg as [Hg|Hg]; [|destruct Hg as (_ & Hc & _); congruence].
    destruct (get_cell_index mx my) as [idx|] eqn:Ei.
    2:{ destruct (IH g (or_introl Hg)) as [I1 I2]. split; [exact I1|].
        intros [_ Hevs]%Forall_cons. by apply I2. }
    destruct (get_cell_index_bounds mx my idx Ei) as (_ & _ & _ & Hidx).
    pose proof Hg as (Hb & _). destruct (good_board_chars _ Hb) as (cs & Hcs & Hlen & _).
    destruct (list_getitem_range (board g) idx ltac:(lia)) as [Hhigh Hlow].
    destruct Hb as [Hb9 _]. rewrite Hb9 in Hhigh, Hlow.
    destruct (decide (idx ≤ 8)) as [Hle|Hgt].
    2:{ rewrite Hhigh by lia. simpl. split; [done|].
        intros [Hclick _]%Forall_cons. simpl in Hclick. specialize (Hclick idx Ei). lia. }
    destruct Hlow as [cell Hcell]; [lia|]. rewrite Hcell. simpl.
    destruct (decide (cell = " "%string)) as [->|Hne].
    2:{ destruct (IH g (or_introl Hg)) as [I1 I2]. split; [exact I1|].
        intros [_ Hevs]%Forall_cons. by apply I2. }
    assert (idx ∈ available_actions (state_of g)) as Hlegal.
    { unfold state_of. rewrite Hcs. apply list_getitem_cells; [lia|].
      exists " "%string. split; [|done]. by rewrite <- Hcs. }
    destruct (user_move_spec g idx Hg Hover Hlegal) as (g1 & -> & Hk1 & _ & Hg1). simpl.
    assert (ui_invariant g1 ∨ ai_to_move g1) as Hg1' by (destruct Hg1 as [[? _]|?]; auto).
    destruct (IH g1 Hg1') as [I1 I2]. split.
    + intros g' Hg'. destruct (I1 g' Hg') as [Hinv Hk2]. split; [done|].
      by apply keeps_marks_trans with (board g1).
    + intros [_ Hevs]%Forall_cons. by apply I2.
  - simpl. destruct (IH g Hg) as [I1 I2]. split; [exact I1|].
    intros [_ Hevs]%Forall_cons. by apply I2.
Qed.

(** One frame. *)
Lemma frame_spec (Q : QLearning.Qtable) (g : game) (i : frame_input) :
  ui_invariant g →
  (∀ g', frame Q g i = Ok g' →
         ui_invariant g'
         ∧ ((game_over g = true ∧ overlay_new i = true ∧ board g' = empty_board)
            ∨ keeps_marks (board g) (board g')))
  ∧ (Forall click_in_cells (events i) → ∃ g', frame Q g i = Ok g').
Proof.
  intros Hg. unfold frame.
  destruct (handle_events_spec (events i) g (or_introl Hg)) as [E1 E2].
  assert (∀ g1, ui_invariant g1 ∨ ai_to_move g1 →
            ∃ g2, ai_turn Q (choice_draw i) g1 = Ok g2
                ∧ keeps_marks (board g1) (board g2) ∧ ui_invariant g2) as Hai.
  { intros g1 [H1|H1].
    - exists g1. destruct (ai_turn_spec Q (choice_draw i) g1) as [A _].
      split_and!; [by apply A|apply keeps_marks_refl|done].
    - destruct (ai_turn_spec Q (choice_draw i) g1) as [_ A].
      destruct (A H1) as (g2 & ? & ? & _ & ?). by exists g2. }
  split.
  - intros g' Hg'. destruct (handle_events g (events i)) as [g1|e] eqn:E; [|done].
    simpl in Hg'. destruct (E1 g1 eq_refl) as [Hg1 Hk1].
    destruct (Hai g1 Hg1) as (g2 & Hg2 & Hk2 & Hinv2). rewrite Hg2 in Hg'. simpl in Hg'.
    injection Hg' as <-.
    assert (keeps_marks (board g) (board g2)) as Hk
      by (by apply keeps_marks_trans with (board g1)).
    unfold handle_buttons. destruct (game_over g2) eqn:Ho2; [|by split; [|right]].
    destruct (game_over g) eqn:Ho.
    + destruct (overlay_new i) eqn:En.
      * split; [apply ui_invariant_reset|]. left. by split_and!.
      * destruct (overlay_quit i); [|by split; [|right]].
        split; [|by right].
        pose proof (ui_invariant_running g2 false Hinv2) as H. by rewrite Ho2 in H.
    + by split; [|right].
  - intros Hevs. destruct (E2 Hevs) as [g1 Hg1]. rewrite Hg1. simpl.
    destruct (E1 g1 Hg1) as [Hinv1 _]. destruct (Hai g1 Hinv1) as (g2 & -> & _).
    simpl. by eexists.
Qed.

Lemma run_spec (Q : QLearning.Qtable) (inputs : list frame_input) :
  ∀ g g', ui_invariant g → run Q g inputs = Ok g' → ui_invariant g'.
Proof.
  induction inputs as [|i inputs IH]; intros g g' Hg; simpl; [by intros [= <-]|].
  destruct (running g); [|by intros [= <-]].
  destruct (frame Q g i) as [g1|e] eqn:E; [|done]. simpl.
  destruct (frame_spec Q g i Hg) as [F _]. destruct (F g1 E) as [Hg1 _].
  by apply IH.
Qed.

Lemma run_total (Q : QLearning.Qtable) (inputs : list frame_input) :
  ∀ g, ui_invariant g →
       Forall (fun i => Forall click_in_cells (events i)) inputs →
       ∃ g', run Q g inputs = Ok g'.
Proof.
  induction inputs as [|i inputs IH]; intros g Hg Hin; simpl; [by eexists|].
  apply Forall_cons in Hin as [Hi Hin].
  destruct (running g); [|by eexists].
  destruct (frame_spec Q g i Hg) as [F1 F2]. destruct (F2 Hi) as [g1 Hg1].
  rewrite Hg1. simpl. apply IH; [|done]. by destruct (F1 g1 Hg1).
Qed.
End UIFrameFacts.

(** ** The course of a game *)

Section GameTraceFacts.
Import Board QLearning.

Lemma winner_cases (s : string) (p q : player) :
  p ≠ q →
  check_winner s (symbol p) = Ok false → check_winner s (symbol q) = Ok false →
  check_winner s "X" = Ok false ∧ check_winner s "O" = Ok false.
Proof.
  destruct p, q; intros Hne Hp Hq;
    [by destruct Hne|split; [exact Hp|exact Hq]|split; [exact Hq|exact Hp]|by destruct Hne].
Qed.

Lemma winner_outcome (s : string) (p q : player) :
  p ≠ q →
  check_winner s (symbol p) = Ok true → check_winner s (symbol q) = Ok false →
  outcome s (if decide (symbol p = "X"%string) then 1 else -1).
Proof.
  destruct p, q; intros Hne Hp Hq; [by destruct Hne| | |by destruct Hne].
  - left. split; [reflexivity|]. split; [exact Hp|exact Hq].
  - right; left. split; [reflexivity|]. split; [exact Hp|exact Hq].
Qed.

(** From a board of nine cells on which nobody has a line and [e ≥ 1] cells
    are Empty, the loop returns within [e] iterations the outcome of the game
    it has played. *)
Lemma play_loop_trace (fuel : nat) (rand : nat → float * nat) (epsilon : float) :
  ∀ (t : nat) (Q : Qtable) (state : string) (current other : player) (last : last_moves),
    current ≠ other →
    length (Py.chars state) = 9%nat →
    (1 ≤ count_cells blank state ≤ fuel)%nat →
    check_winner state "X" = Ok false ∧ check_winner state "O" = Ok false →
    ∃ (r : Z) (Q' : Qtable) (moves : list Z) (final : string),
      play_loop fuel rand epsilon t Q state current other last = Some (Ok (r, Q'))
      ∧ (1 ≤ length moves)%nat
      ∧ (∀ (i : nat) (a : Z), moves !! i = Some a →
           ∃ (s : string) (Qi : Qtable) (lasti : last_moves),
             replay state current other (take i moves) = Ok s
             ∧ (i = 0%nat → Qi = Q)
             ∧ play_loop (fuel - i) rand epsilon (t + i) Qi s
                 (turn current other i) (turn other current i) lasti
               = Some (Ok (r, Q'))
             ∧ epsilon_greedy_action Qi s epsilon (rand (t + i)%nat).1
                 (rand (t + i)%nat).2 = Some a
             ∧ a ∈ available_actions s
             ∧ live s
             ∧ (count_cells blank s + i = count_cells blank state)%nat)
      ∧ replay state current other moves = Ok final
      ∧ (count_cells blank final + length moves = count_cells blank state)%nat
      ∧ outcome final r.
Proof.
  induction fuel as [|fuel IH];
    intros t Q state current other last Hne Hlen Hcnt [HwX HwO]; [lia|].
  remember (play_loop (S fuel) rand epsilon t Q state current other last) as run eqn:Hrun.
  pose proof Hrun as Hrun0. cbn [play_loop] in Hrun.
  destruct (epsilon_greedy_action Q state epsilon (rand t).1 (rand t).2)
    as [action|] eqn:Ea.
  2:{ apply epsilon_greedy_action_None, available_actions_count in Ea. lia. }
  pose proof (epsilon_greedy_action_in _ _ _ _ _ _ Ea) as Hlegal.
  destruct (next_state_fills state action current Hlegal) as (state' & Hnext & _ & Hfill).
  destruct (move_winner state action current other Hlen Hlegal)
    as (s2 & Hnext2 & Hlen' & Hother & _).
  rewrite Hnext in Hnext2. injection Hnext2 as <-. specialize (Hother Hne).
  rewrite Hnext in Hrun.
  assert (check_winner state (symbol other) = Ok false) as Hwo
    by (destruct other; [exact HwX|exact HwO]).
  rewrite Hwo in Hother. clear Hwo.
  assert (live state) as Hlive.
  { split; [exact HwX|]. split; [exact HwO|].
    destruct (is_draw state) eqn:Hd; [|reflexivity].
    apply is_draw_count in Hd. lia. }
  assert (∀ (moves : list Z) (r : Z) (Q' : Qtable),
            run = Some (Ok (r, Q')) →
            ∃ (s : string) (Qi : Qtable) (lasti : last_moves),
              replay state current other (take 0 (action :: moves)) = Ok s
              ∧ (0%nat = 0%nat → Qi = Q)
              ∧ play_loop (S fuel - 0) rand epsilon (t + 0) Qi s
                  (turn current other 0) (turn other current 0) lasti
                = Some (Ok (r, Q'))
              ∧ epsilon_greedy_action Qi s epsilon (rand (t + 0)%nat).1
                  (rand (t + 0)%nat).2 = Some action
              ∧ action ∈ available_actions s
              ∧ live s
              ∧ (count_cells blank s + 0 = count_cells blank state)%nat) as Hfirst.
  { intros moves r Q' Hr. exists state, Q, last. rewrite Nat.add_0_r.
    split; [reflexivity|]. split; [reflexivity|].
    split; [cbn [Nat.sub turn]; rewrite <- Hrun0; exact Hr|]. split; [exact Ea|].
    split; [exact Hlegal|]. split; [exact Hlive|lia]. }
  assert (replay state current other [action] = Ok state') as Hreplay
    by (cbn [replay]; rewrite Hnext; reflexivity).
  destruct (check_winner_total state' (symbol current) Hlen') as [won Hwon].
  rewrite Hwon in Hrun. destruct won.
  { eexists _, _, [action], state'.
    split; [exact Hrun|]. split; [simpl; lia|]. split.
    { intros [|i] a Hi; [|by destruct i]. injection Hi as <-. by apply Hfirst. }
    split; [exact Hreplay|]. split; [simpl; lia|].
    by apply (winner_outcome state' current other). }
  destruct (is_draw state') eqn:Hd.
  { eexists _, _, [action], state'.
    split; [exact Hrun|]. split; [simpl; lia|]. split.
    { intros [|i] a Hi; [|by destruct i]. injection Hi as <-. by apply Hfirst. }
    split; [exact Hreplay|]. split; [simpl; lia|].
    right; right. destruct (winner_cases state' current other Hne Hwon Hother) as [H1 H2].
    split; [reflexivity|]. split; [exact H1|]. split; [exact H2|exact Hd]. }
  assert (count_cells blank state' ≠ 0%nat) as Hpos.
  { intros Hz. apply is_draw_count in Hz. congruence. }
  destruct (IH (S t)
              (update_last Q last current 0%float state)
              state' other current (set_last last current (state, action)))
    as (r & Q' & moves & final & Hrest & Hlen_moves & Hmoves & Hfinal & Hcount & Hout).
  { by apply other_player. }
  { exact Hlen'. }
  { lia. }
  { exact (winner_cases state' current other Hne Hwon Hother). }
  rewrite Hrest in Hrun.
  exists r, Q', (action :: moves), final.
  split; [exact Hrun|]. split; [simpl; lia|]. split.
  2:{ split; [cbn [replay]; rewrite Hnext; exact Hfinal|]. split; [simpl; lia|exact Hout]. }
  intros [|i] a Hi.
  - injection Hi as <-. by apply Hfirst.
  - cbn in Hi. destruct (Hmoves i a Hi) as (s & Qi & lasti & H1 & _ & H2 & H3 & H4 & H5 & H6).
    exists s, Qi, lasti. rewrite Nat.add_succ_r.
    split; [cbn [take replay]; rewrite Hnext; exact H1|].
    split; [intros [=]|]. split; [exact H2|]. split; [exact H3|].
    split; [exact H4|]. split; [exact H5|lia].
Qed.
End GameTraceFacts.

(** * Properties of the specification *)

Local Open Scope Z_scope.

(** C7. For a board of nine cells and a mark [X] or [O], [check_winner]
    returns (it raises nothing) and its answer is [True] exactly when one of
    the eight lines (rows (0,1,2), (3,4,5), (6,7,8), columns (0,3,6), (1,4,7),
    (2,5,8), diagonals (0,4,8), (2,4,6)) has its three cells equal to the
    mark; in particular the answer is [False] when fewer than three cells
    hold the mark. *)
Theorem check_winner_iff_line (s : string) (p : player) :
  length (Py.chars s) = 9%nat →
  ∃ b, Board.check_winner s (symbol p) = Ok b
    ∧ (b = true ↔
       ∃ line, line ∈ [ (0,1,2); (3,4,5); (6,7,8); (0,3,6); (1,4,7); (2,5,8);
                        (0,4,8); (2,4,6) ]
               ∧ Board.line_filled s (mark_char p) line)
    ∧ ((Board.count_cells (mark_char p) s < 3)%nat → b = false).
Proof.
  intros Hlen. unfold Board.check_winner.
  destruct (check_lines_spec s (symbol p) Board.wins (wins_in_range s Hlen))
    as (b & Hb & Hiff).
  assert (b = true ↔ ∃ line, line ∈ Board.wins ∧ Board.line_filled s (mark_char p) line)
    as Hiff'.
  { rewrite Hiff. split.
    - intros (line & m & Hin & Hf & [= ->]). by exists line.
    - intros (line & Hin & Hf). by exists line, (mark_char p). }
  exists b. split_and!; [done|exact Hiff'|].
  intros Hcnt. destruct b; [exfalso|done].
  destruct Hiff' as [Hex _]. destruct (Hex eq_refl) as (line & Hin & H1 & H2 & H3).
  pose proof (wins_in_range s Hlen) as Hrange.
  rewrite Forall_forall in Hrange. destruct (Hrange line Hin) as (R1 & R2 & R3).
  apply str_getitem_nonneg in H1, H2, H3; try done.
  unfold Board.count_cells in Hcnt.
  destruct (Py.chars s) as [|c0 [|c1 [|c2 [|c3 [|c4 [|c5 [|c6 [|c7 [|c8 [|]]]]]]]]]];
    try discriminate Hlen.
  pose proof (filter_three_of_nine _ _ _ _ _ _ _ _ _ _ line Hin H1 H2 H3). lia.
Qed.

Lemma check_winner_iff_line_witness :
  length (Py.chars "XXXOO    ") = 9%nat
  ∧ ∃ b, Board.check_winner "XXXOO    " (symbol PX) = Ok b
      ∧ (b = true ↔
         ∃ line, line ∈ [ (0,1,2); (3,4,5); (6,7,8); (0,3,6); (1,4,7); (2,5,8);
                          (0,4,8); (2,4,6) ]
                 ∧ Board.line_filled "XXXOO    " (mark_char PX) line)
      ∧ ((Board.count_cells (mark_char PX) "XXXOO    " < 3)%nat → b = false).
Proof.
  split; [reflexivity|]. apply (check_winner_iff_line "XXXOO    " PX). reflexivity.
Defined.

(** C3, the claim as stated fails: on a board whose cell 0 holds [X],
    [next_state] with action 0 and mark [O] raises nothing and returns the
    board with that cell overwritten. *)
Lemma next_state_occupied_counterexample :
  Py.str_getitem "X        " 0 = Ok "X"%char
  ∧ Board.next_state "X        " 0 (symbol PO) = Ok "O        "%string.
Proof. split; reflexivity. Qed.

(** C3, amended. [next_state] has no occupancy guard: for a board of nine
    cells and an action in [0,8] whose cell is not Empty, the call returns
    the board of nine cells in which that cell is overwritten by the mark and
    every other cell is as before (the result is the input with exactly that
    character replaced, so the mark that was there is lost), and with no
    symbol does it raise. *)
Theorem next_state_overwrites (s : string) (a : Z) (p : player) (c : ascii) :
  length (Py.chars s) = 9%nat → 0 ≤ a ≤ 8 →
  Py.str_getitem s a = Ok c → c ≠ blank →
  (∃ s', Board.next_state s a (symbol p) = Ok s'
      ∧ length (Py.chars s') = 9%nat
      ∧ Py.str_getitem s' a = Ok (mark_char p)
      ∧ (∀ i, 0 ≤ i ≤ 8 → i ≠ a → Py.str_getitem s' i = Py.str_getitem s i)
      ∧ Py.chars s' = <[Z.to_nat a := mark_char p]> (Py.chars s)
      ∧ (c ≠ mark_char p → s' ≠ s))
  ∧ ∀ sym, is_ok (Board.next_state s a sym) = true.
Proof.
  intros Hlen Ha Hc _. split.
  - destruct (next_state_writes s a (mark_char p)) as (s' & Hs' & Hch & Hl & Hget & Hfr);
      [lia|].
    exists s'. split_and!; [done|congruence|done| |done|].
    + intros i Hi Hne. apply Hfr; [lia|done].
    + intros Hne ->. rewrite Hget in Hc. congruence.
  - intros sym. destruct (Board.next_state s a sym) as [|e] eqn:E; [done|].
    apply next_state_raises in E as [_ E]. rewrite norm_index_nonneg in E by lia. done.
Qed.

Lemma next_state_overwrites_witness :
  (∃ s', Board.next_state "X        " 0 (symbol PO) = Ok s'
      ∧ length (Py.chars s') = 9%nat
      ∧ Py.str_getitem s' 0 = Ok (mark_char PO)
      ∧ (∀ i, 0 ≤ i ≤ 8 → i ≠ 0 → Py.str_getitem s' i = Py.str_getitem "X        " i)
      ∧ Py.chars s' = <[Z.to_nat 0 := mark_char PO]> (Py.chars "X        ")
      ∧ ("X"%char ≠ mark_char PO → s' ≠ "X        "%string))
  ∧ ∀ sym, is_ok (Board.next_state "X        " 0 sym) = true.
Proof.
  apply (next_state_overwrites "X        " 0 PO "X"%char);
    [reflexivity | lia | reflexivity | discriminate].
Defined.

(** C8. For a board of nine cells, an action in [0,8] whose cell is Empty
    and a mark [X] or [O], [next_state] returns a board of nine cells in
    which the named cell holds the mark (so it is not Empty) and every other
    cell is as in the input. *)
Theorem next_state_frame (s : string) (a : Z) (p : player) :
  length (Py.chars s) = 9%nat → 0 ≤ a ≤ 8 → Py.str_getitem s a = Ok blank →
  ∃ s', Board.next_state s a (symbol p) = Ok s'
    ∧ length (Py.chars s') = 9%nat
    ∧ Py.str_getitem s' a = Ok (mark_char p)
    ∧ Py.str_getitem s' a ≠ Ok blank
    ∧ ∀ i, 0 ≤ i ≤ 8 → i ≠ a → Py.str_getitem s' i = Py.str_getitem s i.
Proof.
  intros Hlen Ha _.
  destruct (next_state_writes s a (mark_char p)) as (s' & Hs' & _ & Hl & Hget & Hfr);
    [lia|].
  exists s'. split_and!; [done|congruence|done| |].
  - rewrite Hget. intros [= E]. by apply (mark_not_blank p).
  - intros i Hi Hne. apply Hfr; [lia|done].
Qed.

Lemma next_state_frame_witness :
  ∃ s', Board.next_state "XXO  O   " 4 (symbol PX) = Ok s'
    ∧ length (Py.chars s') = 9%nat
    ∧ Py.str_getitem s' 4 = Ok (mark_char PX)
    ∧ Py.str_getitem s' 4 ≠ Ok blank
    ∧ ∀ i, 0 ≤ i ≤ 8 → i ≠ 4 → Py.str_getitem s' i = Py.str_getitem "XXO  O   " i.
Proof.
  apply (next_state_frame "XXO  O   " 4 PX); [reflexivity | lia | reflexivity].
Defined.

(** C1. [update_q_value(s, a, r, s')] leaves at key [(s, a)] exactly
    [get(s,a) + ALPHA * (r + GAMMA * max_next - get(s,a))], computed in
    binary64 with [ALPHA = 0.5] and [GAMMA = 0.9]; [max_next] is [0.0] when
    [s'] has no legal action and otherwise is the value of a legal action of
    [s'] that no value of a legal action of [s'] exceeds.  It holds for every
    action, legal in [s] or not. *)
Theorem update_q_value_rule (Q : QLearning.Qtable) (s : string) (a : Z) (r : float)
    (s' : string) :
  QLearning.get_q_value (QLearning.update_q_value Q s a r s') s a
  = (QLearning.get_q_value Q s a
     + QLearning.ALPHA
       * (r + QLearning.GAMMA * QLearning.max_q_next Q s' - QLearning.get_q_value Q s a))%float
  ∧ match Board.available_actions s' with
    | [] => QLearning.max_q_next Q s' = 0%float
    | _ :: _ => ∃ a', a' ∈ Board.available_actions s'
                  ∧ QLearning.max_q_next Q s' = QLearning.get_q_value Q s' a'
    end
  ∧ Forall (fun a' => PrimFloat.ltb (QLearning.max_q_next Q s')
                        (QLearning.get_q_value Q s' a') = false)
      (Board.available_actions s')
  ∧ QLearning.ALPHA = 0.5%float ∧ QLearning.GAMMA = 0.9%float.
Proof.
  split_and!.
  - unfold QLearning.update_q_value. unfold QLearning.get_q_value at 1.
    by rewrite dict_get_set_eq.
  - apply max_q_next_attained.
  - apply max_q_next_no_greater.
  - reflexivity.
  - reflexivity.
Qed.

(** C10. [update_q_value(old_state, action, reward, new_state)] changes at
    most the entry keyed by [(old_state, action)]: any other key is present
    or absent as before and reads the same value. *)
Theorem update_q_value_frame (Q : QLearning.Qtable) (old_state : string) (action : Z)
    (reward : float) (new_state : string) (state2 : string) (action2 : Z) :
  (state2, action2) ≠ (old_state, action) →
  PyDict.get (QLearning.update_q_value Q old_state action reward new_state)
    (state2, action2) = PyDict.get Q (state2, action2)
  ∧ QLearning.get_q_value
      (QLearning.update_q_value Q old_state action reward new_state) state2 action2
    = QLearning.get_q_value Q state2 action2.
Proof.
  intros Hne.
  assert (PyDict.get (QLearning.update_q_value Q old_state action reward new_state)
            (state2, action2) = PyDict.get Q (state2, action2)) as Hget.
  { unfold QLearning.update_q_value. apply dict_get_set_ne. congruence. }
  split; [exact Hget|]. unfold QLearning.get_q_value. by rewrite Hget.
Qed.

Lemma update_q_value_frame_witness :
  PyDict.get (QLearning.update_q_value [(("X        ", 4), 0.5%float)]
                "         " 0 1%float "X        ") ("X        ", 4)
  = PyDict.get [(("X        ", 4), 0.5%float)] ("X        ", 4)
  ∧ QLearning.get_q_value
      (QLearning.update_q_value [(("X        ", 4), 0.5%float)]
         "         " 0 1%float "X        ") "X        " 4
    = QLearning.get_q_value [(("X        ", 4), 0.5%float)] "X        " 4.
Proof.
  apply (update_q_value_frame [(("X        ", 4), 0.5%float)]
           "         " 0 1%float "X        " "X        " 4).
  discriminate.
Defined.

(** C2. [choose_best_action(state)], [k] being the draw of [random.choice]:
    - it returns [None] exactly when [state] has no Empty cell;
    - the legal actions are the indices of the Empty cells, each listed once;
    - when there is a legal action and every legal action's stored value is
      [== 0.0], it returns [random.choice] of the legal actions;
    - when some legal action's stored value is not [== 0.0], it returns a
      legal action whose value no legal action's value exceeds, and which
      every legal action of lower index fails to equal or exceed;
    - on the empty board with 0.9 stored for action 4 and 0.0 read for every
      other action, it returns 4 whatever the draw. *)
Theorem choose_best_action_spec (Q : QLearning.Qtable) (state : string) (k : nat) :
  (Advisor.choose_best_action Q state k = None ↔ blank ∉ Py.chars state)
  ∧ (NoDup (Board.available_actions state)
     ∧ ∀ a, a ∈ Board.available_actions state ↔
            (0 ≤ a < Z.of_nat (length (Py.chars state)))
            ∧ Py.str_getitem state a = Ok blank)
  ∧ (Board.available_actions state ≠ [] →
     Forall (fun a => PrimFloat.eqb (Advisor.get_q_value Q state a) 0%float = true)
       (Board.available_actions state) →
     Advisor.choose_best_action Q state k
       = Py.random_choice k (Board.available_actions state)
     ∧ ∃ a, a ∈ Board.available_actions state
          ∧ Advisor.choose_best_action Q state k = Some a)
  ∧ (Exists (fun a => PrimFloat.eqb (Advisor.get_q_value Q state a) 0%float = false)
       (Board.available_actions state) →
     ∃ a, Advisor.choose_best_action Q state k = Some a
       ∧ a ∈ Board.available_actions state
       ∧ ∀ a', a' ∈ Board.available_actions state →
           PrimFloat.ltb (Advisor.get_q_value Q state a)
             (Advisor.get_q_value Q state a') = false
           ∧ (a' < a →
              PrimFloat.leb (Advisor.get_q_value Q state a)
                (Advisor.get_q_value Q state a') = false))
  ∧ (state = "         "%string →
     Advisor.get_q_value Q state 4 = 0.9%float →
     (∀ a, a ≠ 4 → Advisor.get_q_value Q state a = 0%float) →
     Advisor.choose_best_action Q state k = Some 4).
Proof.
  unfold Advisor.get_q_value.
  assert (Exists (fun a => PrimFloat.eqb (QLearning.get_q_value Q state a) 0%float = false)
            (Board.available_actions state) →
          ∃ a, Advisor.choose_best_action Q state k = Some a
            ∧ a ∈ Board.available_actions state
            ∧ ∀ a', a' ∈ Board.available_actions state →
                PrimFloat.ltb (QLearning.get_q_value Q state a)
                  (QLearning.get_q_value Q state a') = false
                ∧ (a' < a →
                   PrimFloat.leb (QLearning.get_q_value Q state a)
                     (QLearning.get_q_value Q state a') = false)) as Hbest.
  { intros Hex. rewrite choose_best_action_unfold.
    pose proof (available_actions_sorted state) as Hsorted.
    destruct (Board.available_actions state) as [|a0 rest] eqn:E.
    { by apply Exists_nil in Hex. }
    destruct (forallb _ (a0 :: rest)) eqn:Hall.
    { apply forallb_Forall_true in Hall. apply Exists_exists in Hex as (a & Ha & Hz).
      rewrite Forall_forall in Hall. specialize (Hall a Ha). simpl in Hall. congruence. }
    eexists. split; [done|]. split; [apply max_by_in|].
    intros a' Ha'. by apply max_by_sorted. }
  split_and!.
  - rewrite choose_best_action_unfold, <- available_actions_nil.
    destruct (Board.available_actions state) as [|a0 rest] eqn:E; [done|].
    split; [|done]. destruct (forallb _ _); [|done].
    destruct (random_choice_in k (a0 :: rest)) as (x & -> & _); done.
  - apply available_actions_NoDup.
  - apply available_actions_getitem.
  - intros Hne Hall. rewrite choose_best_action_unfold.
    destruct (Board.available_actions state) as [|a0 rest] eqn:E; [done|].
    apply forallb_Forall_true in Hall. rewrite Hall. split; [done|].
    destruct (random_choice_in k (a0 :: rest)) as (x & Hx & Hin); [done|]. by exists x.
  - exact Hbest.
  - intros -> H4 H0.
    assert (4 ∈ Board.available_actions "         ") as Hfour.
    { apply available_actions_spec. split; [lia|reflexivity]. }
    destruct Hbest as (a & Ha & Hin & Hmax).
    { apply Exists_exists. exists 4. split; [done|]. by rewrite H4. }
    rewrite Ha. f_equal. destruct (decide (a = 4)) as [->|Hne]; [done|exfalso].
    destruct (Hmax 4 Hfour) as [Hlt _].
    rewrite H4, (H0 a Hne) in Hlt. discriminate Hlt.
Qed.

Lemma choose_best_action_spec_witness :
  Advisor.choose_best_action [(("         ", 4), 0.9%float)] "         " 7 = Some 4.
Proof.
  apply (choose_best_action_spec [(("         ", 4), 0.9%float)] "         " 7).
  - reflexivity.
  - reflexivity.
  - intros a Ha. unfold Advisor.get_q_value, QLearning.get_q_value. simpl.
    rewrite decide_False; [done|]. congruence.
Defined.

(** C9. [play_one_game] terminates, for every epsilon, every table and every
    sequence of random draws: nine iterations of its loop are enough (more
    change nothing) and no exception is raised.  The value returned is the
    outcome of the game the loop has played: there are between one and nine
    moves, made in turn by X and by O from the board of nine Empty cells;
    iteration [i] of the loop starts on the board reached by the moves before
    it, with some table and record of last moves (for [i = 0] the table
    given) from which the loop returns the same value and table; move number
    [i] is the action [epsilon_greedy_action] returns there for the draws of
    iteration [i], it is legal, nobody has a line on that board, and the
    board has [9 - i] Empty cells, so each iteration leaves one Empty cell
    fewer; and on the final board either X has a line, O has none and the
    value is 1, or O has a line, X has none and the value is -1, or nobody
    has a line, the board is full and the value is 0. *)
Theorem play_one_game_terminates (extra : nat) (rand : nat → float * nat)
    (epsilon : float) (Q : QLearning.Qtable) :
  ∃ (r : Z) (Q' : QLearning.Qtable) (moves : list Z) (final : string),
    QLearning.play_one_game (9 + extra) rand epsilon Q = Some (Ok (r, Q'))
    ∧ (1 ≤ length moves ≤ 9)%nat
    ∧ (∀ (i : nat) (a : Z), moves !! i = Some a →
         ∃ (s : string) (Qi : QLearning.Qtable) (lasti : QLearning.last_moves),
           replay Board.initial_state PX PO (take i moves) = Ok s
           ∧ (i = 0%nat → Qi = Q)
           ∧ QLearning.play_loop (9 + extra - i) rand epsilon i Qi s
               (turn PX PO i) (turn PO PX i) lasti
             = Some (Ok (r, Q'))
           ∧ QLearning.epsilon_greedy_action Qi s epsilon (rand i).1 (rand i).2 = Some a
           ∧ a ∈ Board.available_actions s
           ∧ live s
           ∧ (Board.count_cells blank s + i = 9)%nat)
    ∧ replay Board.initial_state PX PO moves = Ok final
    ∧ (Board.count_cells blank final + length moves = 9)%nat
    ∧ outcome final r.
Proof.
  unfold QLearning.play_one_game.
  destruct (play_loop_trace (9 + extra) rand epsilon 0 Q Board.initial_state PX PO
              (QLearning.LastMoves None None))
    as (r & Q' & moves & final & Hrun & Hne & Hmoves & Hfinal & Hcount & Hout);
    [discriminate|reflexivity| |split; reflexivity|].
  { change (Board.count_cells blank Board.initial_state) with 9%nat. lia. }
  change (Board.count_cells blank Board.initial_state) with 9%nat in Hcount, Hmoves.
  exists r, Q', moves, final.
  split; [exact Hrun|]. split; [lia|]. split; [exact Hmoves|].
  split; [exact Hfinal|]. split; [exact Hcount|exact Hout].
Qed.



(** C6. For a table whose keys are pairs of a 9-character state string and
    an action in [0,8], [save_q_table] followed by [load_q_table] into an
    empty table raises nothing and gives a table with the same keys mapped
    to the same values. *)
Theorem save_load_round_trip (Q : Persist.Ptable) :
  PyDict.wf Q →
  (∀ s a v, (s, a, v) ∈ Q → length (Py.chars s) = 9%nat ∧ 0 ≤ a ≤ 8) →
  ∃ Q', Persist.load_q_table (Persist.save_q_table Q) [] = (Q', None)
      ∧ PyDict.wf Q'
      ∧ ∀ s a, PyDict.get Q' (s, a) = PyDict.get Q (s, a).
Proof.
  intros Hwf Hkeys.
  destruct (save_items_perm Q []) as [Hok Hperm].
  - constructor.
  - apply Forall_forall. intros [[s a] v] Hin. simpl. by apply (Hkeys s a v).
  - exact Hwf.
  - simpl in Hperm. unfold Persist.save_q_table, Persist.to_json, Persist.load_q_table.
    simpl Persist.items. cbv iota beta. rewrite load_states_fold by done.
    eexists. split; [done|]. split.
    + apply wf_foldl_set. constructor.
    + intros s a. rewrite get_foldl_set.
      * rewrite (get_perm _ Q (s, a) Hperm).
        -- by destruct (PyDict.get Q (s, a)).
        -- unfold PyDict.keys. rewrite Hperm. exact Hwf.
      * unfold PyDict.keys. rewrite Hperm. exact Hwf.
Qed.

Lemma save_load_round_trip_witness :
  ∃ Q', Persist.load_q_table
          (Persist.save_q_table
             (Persist.of_Qtable
                [(("X        ", 4), 0.5%float); (("         ", 0), 0.25%float);
                 (("X        ", 2), (-0.275)%float)])) []
        = (Q', None)
      ∧ PyDict.wf Q'
      ∧ ∀ s a, PyDict.get Q' (s, a)
               = PyDict.get
                   (Persist.of_Qtable
                      [(("X        ", 4), 0.5%float); (("         ", 0), 0.25%float);
                       (("X        ", 2), (-0.275)%float)]) (s, a).
Proof.
  apply (save_load_round_trip
           (Persist.of_Qtable
              [(("X        ", 4), 0.5%float); (("         ", 0), 0.25%float);
               (("X        ", 2), (-0.275)%float)])).
  - unfold PyDict.wf. simpl. apply (bool_decide_unpack _). reflexivity.
  - intros s a v Hin. simpl in Hin.
    repeat (apply elem_of_cons in Hin as [[= -> -> ->]|Hin]; [split; [reflexivity|lia]|]).
    by apply elem_of_nil in Hin.
Defined.



(** * Further properties of the code *)

(** X1. [available_actions] lists, in increasing order, exactly the indices
    of the Empty cells; there are as many as Empty cells; and [is_draw]
    answers [True] exactly when the list is empty. *)
Theorem available_actions_empty_cells (s : string) :
  StronglySorted Z.lt (Board.available_actions s)
  ∧ (∀ a, a ∈ Board.available_actions s ↔
          (0 ≤ a < Z.of_nat (length (Py.chars s))) ∧ Py.str_getitem s a = Ok blank)
  ∧ length (Board.available_actions s) = Board.count_cells blank s
  ∧ (Board.is_draw s = true ↔ Board.available_actions s = []).
Proof.
  split_and!.
  - apply available_actions_sorted.
  - apply available_actions_getitem.
  - apply available_actions_length.
  - by rewrite is_draw_count, available_actions_count.
Qed.

(** X2. The greedy choice of the trainer: [best_action] returns [None]
    exactly when there is no legal action; an action it returns is legal, no
    legal action has a greater value and every legal action of lower index
    has a value that is not [>=] its value.  When every legal action reads
    [== 0.0] it returns the legal action of lowest index (no random choice,
    unlike the advisor). *)
Theorem best_action_first_max (Q : QLearning.Qtable) (s : string) :
  (QLearning.best_action Q s = None ↔ Board.available_actions s = [])
  ∧ (∀ a, QLearning.best_action Q s = Some a →
       a ∈ Board.available_actions s
       ∧ ∀ a', a' ∈ Board.available_actions s →
           PrimFloat.ltb (QLearning.get_q_value Q s a) (QLearning.get_q_value Q s a')
           = false
           ∧ (a' < a →
              PrimFloat.leb (QLearning.get_q_value Q s a)
                (QLearning.get_q_value Q s a') = false))
  ∧ (Forall (fun a => PrimFloat.eqb (QLearning.get_q_value Q s a) 0%float = true)
       (Board.available_actions s) →
     QLearning.best_action Q s = head (Board.available_actions s)).
Proof.
  split_and!.
  - apply best_action_None.
  - intros a Ha. pose proof (available_actions_sorted s) as Hsorted.
    unfold QLearning.best_action in Ha.
    destruct (Board.available_actions s) as [|a0 acts]; [done|].
    injection Ha as <-. split; [apply max_by_in|].
    intros a' Ha'. by apply max_by_sorted.
  - intros Hall. unfold QLearning.best_action.
    destruct (Board.available_actions s) as [|a0 acts]; [done|]. simpl. f_equal.
    apply Forall_cons in Hall as [H0 Hall]. apply max_by_never_beaten.
    eapply Forall_impl; [exact Hall|]. intros y Hy. simpl in Hy.
    by apply float_eq_eq_nlt with 0%float.
Qed.

(** X3. [epsilon_greedy_action], for the value [u] of [random.random()] and
    the draw [k] of [random.choice]: it returns [None] exactly when there is
    no legal action, and otherwise a legal action.  With [epsilon = 0.0] and
    [u >= 0] it is [best_action]; with [epsilon = 1.0] and [u < 1] it is
    [random.choice] of the legal actions. *)
Theorem epsilon_greedy_action_modes (Q : QLearning.Qtable) (s : string) (u : float)
    (k : nat) :
  (∀ epsilon, QLearning.epsilon_greedy_action Q s epsilon u k = None ↔
              Board.available_actions s = [])
  ∧ (∀ epsilon a, QLearning.epsilon_greedy_action Q s epsilon u k = Some a →
                  a ∈ Board.available_actions s)
  ∧ (PrimFloat.leb 0 u = true →
     QLearning.epsilon_greedy_action Q s 0%float u k = QLearning.best_action Q s)
  ∧ (PrimFloat.ltb u 1 = true → Board.available_actions s ≠ [] →
     QLearning.epsilon_greedy_action Q s 1%float u k
     = Py.random_choice k (Board.available_actions s)).
Proof.
  split_and!.
  - intros epsilon. apply epsilon_greedy_action_None.
  - intros epsilon a. apply epsilon_greedy_action_in.
  - intros Hu. unfold QLearning.epsilon_greedy_action, QLearning.best_action.
    destruct (Board.available_actions s) as [|a0 acts]; [done|].
    by rewrite (float_le_nlt 0 u).
  - intros Hu Hne. unfold QLearning.epsilon_greedy_action.
    destruct (Board.available_actions s) as [|a0 acts]; [done|]. by rewrite Hu.
Qed.

(** X4. [next_state] and the index: it raises exactly when the action is
    outside [-len, len-1], and then it is [IndexError]; a negative action in
    range writes the cell counted from the end, as action [action + len]. *)
Theorem next_state_index_error (s : string) (a : Z) (sym : string) :
  (Board.next_state s a sym = Raise IndexError ↔
   ¬ (- Z.of_nat (length (Py.chars s)) ≤ a < Z.of_nat (length (Py.chars s))))
  ∧ (∀ e, Board.next_state s a sym = Raise e → e = IndexError)
  ∧ (- Z.of_nat (length (Py.chars s)) ≤ a < 0 →
     Board.next_state s a sym
     = Board.next_state s (a + Z.of_nat (length (Py.chars s))) sym).
Proof.
  split_and!.
  - rewrite <- norm_index_None. split.
    + intros H. by apply next_state_raises in H as [_ ?].
    + intros H. unfold Board.next_state, Py.list_setitem, Py.list_of_str.
      by rewrite length_fmap, H.
  - intros e H. by apply next_state_raises in H as [? _].
  - intros Ha. unfold Board.next_state, Py.list_setitem, Py.list_of_str.
    rewrite length_fmap. by rewrite norm_index_negative.
Qed.

(** X5. A move on a legal action of a board of nine cells leaves the
    opponent's winner test as it was (a move never gives the other player a
    line), and keeps a win of the mover. *)
Theorem next_state_keeps_winner (s : string) (a : Z) (p q : player) :
  length (Py.chars s) = 9%nat → a ∈ Board.available_actions s →
  ∃ s', Board.next_state s a (symbol p) = Ok s'
    ∧ (p ≠ q → Board.check_winner s' (symbol q) = Board.check_winner s (symbol q))
    ∧ (Board.check_winner s (symbol p) = Ok true →
       Board.check_winner s' (symbol p) = Ok true).
Proof.
  intros Hlen Ha. destruct (move_winner s a p q Hlen Ha) as (s' & Hs' & _ & H1 & H2).
  by exists s'.
Qed.

Lemma next_state_keeps_winner_witness :
  ∃ s', Board.next_state "XX OO    " 2 (symbol PX) = Ok s'
    ∧ (PX ≠ PO → Board.check_winner s' (symbol PO)
                 = Board.check_winner "XX OO    " (symbol PO))
    ∧ (Board.check_winner "XX OO    " (symbol PX) = Ok true →
       Board.check_winner s' (symbol PX) = Ok true).
Proof.
  apply (next_state_keeps_winner "XX OO    " 2 PX PO); [reflexivity|].
  apply available_actions_spec. split; [lia|reflexivity].
Defined.

(** X6. What a game does to the table, for every table, epsilon and random
    draws: no key is lost, keys stay unique, every new key is a board of
    nine cells with a cell index in [0,8] (so a table of valid keys stays
    one), and the table is not empty afterwards. *)
Theorem play_one_game_grows_table (extra : nat) (rand : nat → float * nat)
    (epsilon : float) (Q : QLearning.Qtable) :
  ∃ r Q', QLearning.play_one_game (9 + extra) rand epsilon Q = Some (Ok (r, Q'))
        ∧ table_grows Q Q'
        ∧ (valid_table Q → valid_table Q')
        ∧ ∃ k, is_Some (PyDict.get Q' k).
Proof.
  destruct (play_one_game_table (9 + extra) rand epsilon Q) as (r & Q' & H & _ & G & Hne);
    [lia|].
  exists r, Q'. split_and!; [done|done| |done]. by apply table_grows_valid.
Qed.

(** X7. No game ends before its fifth move: with at most four iterations the
    loop of [play_one_game] has not returned. *)
Theorem play_one_game_at_least_five_moves (fuel : nat) (rand : nat → float * nat)
    (epsilon : float) (Q : QLearning.Qtable) :
  (fuel ≤ 4)%nat → QLearning.play_one_game fuel rand epsilon Q = None.
Proof.
  intros Hfuel. unfold QLearning.play_one_game.
  assert (Board.count_cells (mark_char PX) Board.initial_state = 0%nat) as HX
    by reflexivity.
  assert (Board.count_cells (mark_char PO) Board.initial_state = 0%nat) as HO
    by reflexivity.
  assert (Board.count_cells blank Board.initial_state = 9%nat) as HB by reflexivity.
  apply play_loop_early; first [done|lia].
Qed.

Lemma play_one_game_at_least_five_moves_witness :
  QLearning.play_one_game 4 (fun _ => (0.5%float, 0%nat)) 1%float [] = None.
Proof.
  apply (play_one_game_at_least_five_moves 4 (fun _ => (0.5%float, 0%nat)) 1%float []).
  lia.
Defined.

(** X8. The loop of [main], from any table and for any random draws, plays
    all [EPISODES] games and raises nothing; the three counters are not
    negative and add up to [EPISODES]; the final [epsilon] is the value of
    the schedule after [EPISODES] steps and is not below [EPSILON_END]; no
    key of the table is lost. *)
Theorem main_loop_counts (pow : float → float → float) (extra : nat)
    (rand : nat → nat → float * nat) (Q : QLearning.Qtable) :
  ∃ t epsilon Q',
    Training.main_loop pow (9 + extra) rand Q = Some (Ok (t, epsilon, Q'))
    ∧ Training.x_wins t + Training.o_wins t + Training.draws t = QLearning.EPISODES
    ∧ 0 ≤ Training.x_wins t ∧ 0 ≤ Training.o_wins t ∧ 0 ≤ Training.draws t
    ∧ epsilon = Schedule.epsilon_at pow (Z.to_nat QLearning.EPISODES)
    ∧ PrimFloat.leb QLearning.EPSILON_END epsilon = true
    ∧ table_grows Q Q'.
Proof.
  unfold Training.main_loop.
  assert (Z.of_nat (Z.to_nat QLearning.EPISODES) = QLearning.EPISODES) as Hn
    by (apply Z2Nat.id; unfold QLearning.EPISODES; lia).
  generalize dependent (Z.to_nat QLearning.EPISODES). intros n Hn.
  destruct (episodes_spec pow n (9 + extra) rand 0
              QLearning.EPSILON_START Q (Training.Tally 0 0 0))
    as (t & Q' & H & Ht & (L1 & L2 & L3) & G); [lia|].
  exists t, (Schedule.epsilon_at pow n), Q'.
  rewrite epsilon_at_iter. unfold tally_total in Ht. cbn [Training.x_wins
    Training.o_wins Training.draws] in Ht, L1, L2, L3.
  split_and!; [exact H|lia|lia|lia|lia|reflexivity| |exact G].
  rewrite <- epsilon_at_iter. apply epsilon_at_lower.
Qed.

(** X9. Training and persistence compose: from a table with unique valid
    keys (the empty table a missing file gives, for one), the table the loop
    of [main] ends with is saved and loaded back without loss: the file
    loads without exception into an empty table and every key reads the
    float that training left. *)
Theorem training_round_trip (pow : float → float → float) (extra : nat)
    (rand : nat → nat → float * nat) (Q : QLearning.Qtable) :
  PyDict.wf Q → valid_table Q →
  ∃ t epsilon Q' P,
    Training.main_loop pow (9 + extra) rand Q = Some (Ok (t, epsilon, Q'))
    ∧ Persist.load_q_table (Persist.save_q_table (Persist.of_Qtable Q')) [] = (P, None)
    ∧ ∀ s a, PyDict.get P (s, a) = Persist.JFloat <$> PyDict.get Q' (s, a).
Proof.
  intros Hwf Hvalid. unfold Training.main_loop.
  generalize (Z.to_nat QLearning.EPISODES). intros n.
  destruct (episodes_spec pow n (9 + extra) rand 0
              QLearning.EPSILON_START Q (Training.Tally 0 0 0))
    as (t & Q' & H & _ & _ & G); [lia|].
  destruct (trained_round_trip Q') as (P & HP & Hget).
  - destruct G as (_ & G & _). by apply G.
  - by apply (table_grows_valid Q Q').
  - eexists t, _, Q', P. split_and!; [exact H|exact HP|]. intros s a. apply Hget.
Qed.

Lemma training_round_trip_witness :
  ∃ t epsilon Q' P,
    Training.main_loop (fun _ _ => 0x1.ffe1d2b229c62p-1%float) (9 + 0)
      (fun _ _ => (0.5%float, 0%nat)) [] = Some (Ok (t, epsilon, Q'))
    ∧ Persist.load_q_table (Persist.save_q_table (Persist.of_Qtable Q')) [] = (P, None)
    ∧ ∀ s a, PyDict.get P (s, a) = Persist.JFloat <$> PyDict.get Q' (s, a).
Proof.
  apply (training_round_trip (fun _ _ => 0x1.ffe1d2b229c62p-1%float) 0
           (fun _ _ => (0.5%float, 0%nat)) []).
  - constructor.
  - intros k Hk. by destruct Hk.
Defined.

(** X10. Loading a file that loads without exception into a table [Q]
    merges: a key reads the value of the last entry of the file that [int]
    maps to it (so ["04"] after ["4"] overrides it), and a key the file does
    not mention reads as in [Q]; the table is not cleared first. *)
Theorem load_q_table_merges (d : list (string * Persist.json)) (Q : Persist.Ptable) :
  Persist.loadable (Persist.Document (Persist.JObj d)) →
  (Persist.load_q_table (Persist.Document (Persist.JObj d)) Q).2 = None
  ∧ ∀ k, PyDict.get (Persist.load_q_table (Persist.Document (Persist.JObj d)) Q).1 k
         = match PyDict.get (reverse (doc_entries d)) k with
           | Some v => Some v
           | None => PyDict.get Q k
           end.
Proof.
  intros Hd. simpl in Hd |- *. rewrite load_states_doc by exact Hd.
  split; [done|]. intros k. simpl. apply get_foldl_set_last.
Qed.

Lemma load_q_table_merges_witness :
  (Persist.load_q_table
     (Persist.Document
        (Persist.JObj [("X        ", Persist.JObj [("4", Persist.JFloat 1);
                                                   ("04", Persist.JFloat 2)])]))
     [(("         ", 0), Persist.JFloat 0.5)]).2 = None
  ∧ ∀ k, PyDict.get
           (Persist.load_q_table
              (Persist.Document
                 (Persist.JObj [("X        ", Persist.JObj [("4", Persist.JFloat 1);
                                                            ("04", Persist.JFloat 2)])]))
              [(("         ", 0), Persist.JFloat 0.5)]).1 k
         = match PyDict.get
                   (reverse
                      (doc_entries
                         [("X        ", Persist.JObj [("4", Persist.JFloat 1);
                                                      ("04", Persist.JFloat 2)])])) k
           with
           | Some v => Some v
           | None => PyDict.get [(("         ", 0), Persist.JFloat 0.5)] k
           end.
Proof.
  apply (load_q_table_merges
           [("X        ", Persist.JObj [("4", Persist.JFloat 1);
                                        ("04", Persist.JFloat 2)])]
           [(("         ", 0), Persist.JFloat 0.5)]).
  simpl. apply Forall_singleton. eexists. split; [reflexivity|].
  apply Forall_cons. split; [by eexists|]. apply Forall_singleton. by eexists.
Defined.

(** X11. When the path exists, [load_q_table] removes no key of the table it
    runs on and keeps its keys unique, whether it returns or raises. *)
Theorem load_q_table_keeps_keys (file : Persist.path_state) (Q : Persist.Ptable) :
  file ≠ Persist.Missing →
  (∀ k, is_Some (PyDict.get Q k) →
        is_Some (PyDict.get (Persist.load_q_table file Q).1 k))
  ∧ (PyDict.wf Q → PyDict.wf (Persist.load_q_table file Q).1).
Proof.
  intros Hfile. destruct file as [|e|q_data]; [done|done|]. simpl.
  destruct q_data as [| | | | | |d]; try done. simpl. apply load_states_keeps.
Qed.

Lemma load_q_table_keeps_keys_witness :
  (∀ k, is_Some (PyDict.get [(("         ", 0), Persist.JFloat 0.5)] k) →
        is_Some (PyDict.get
                   (Persist.load_q_table
                      (Persist.Document
                         (Persist.JObj [("X        ",
                                         Persist.JObj [("4", Persist.JInt 1);
                                                       ("x", Persist.JInt 2)])]))
                      [(("         ", 0), Persist.JFloat 0.5)]).1 k))
  ∧ (PyDict.wf [(("         ", 0), Persist.JFloat 0.5)] →
     PyDict.wf
       (Persist.load_q_table
          (Persist.Document
             (Persist.JObj [("X        ",
                             Persist.JObj [("4", Persist.JInt 1);
                                           ("x", Persist.JInt 2)])]))
          [(("         ", 0), Persist.JFloat 0.5)]).1).
Proof.
  apply (load_q_table_keeps_keys
           (Persist.Document
              (Persist.JObj [("X        ",
                              Persist.JObj [("4", Persist.JInt 1);
                                            ("x", Persist.JInt 2)])]))
           [(("         ", 0), Persist.JFloat 0.5)]).
  discriminate.
Defined.

(** X12. Loading is not atomic: the first entry of the file, when [int]
    accepts its key, is in the table afterwards even if a later entry makes
    [load_q_table] raise. *)
Theorem load_q_table_partial (s k : string) (v : Persist.json) (a : Z)
    (rest d : list (string * Persist.json)) (Q : Persist.Ptable) :
  Persist.py_int k = Some a →
  is_Some (PyDict.get
             (Persist.load_q_table
                (Persist.Document
                   (Persist.JObj ((s, Persist.JObj ((k, v) :: rest)) :: d))) Q).1
             (s, a)).
Proof.
  intros Hk. simpl. rewrite Hk.
  destruct (load_actions_keeps (PyDict.set Q (s, a) v) s rest) as [A _].
  specialize (A (s, a)). rewrite dict_get_set_eq in A.
  destruct (Persist.load_actions (PyDict.set Q (s, a) v) s rest) as [Q1 [e|]];
    simpl in *; [by apply A|].
  destruct (load_states_keeps Q1 d) as [B _]. apply B. by apply A.
Qed.

Lemma load_q_table_partial_witness :
  is_Some (PyDict.get
             (Persist.load_q_table
                (Persist.Document
                   (Persist.JObj [("X        ",
                                   Persist.JObj [("4", Persist.JInt 1);
                                                 ("x", Persist.JInt 2)])])) []).1
             ("X        ", 4)).
Proof.
  apply (load_q_table_partial "X        " "4" (Persist.JInt 1) 4
           [("x", Persist.JInt 2)] [] []).
  reflexivity.
Defined.

(** X13. [save_q_table] on a table of floats whose keys are valid writes a
    document in the persisted format (each state a string of nine
    characters, each action key one of ["0"] .. ["8"], each value a number),
    and that document loads without exception. *)
Theorem save_q_table_format (Q : QLearning.Qtable) :
  valid_table Q →
  ∃ doc, Persist.save_q_table (Persist.of_Qtable Q) = Persist.Document doc
       ∧ Persist.spec_format_ok doc = true
       ∧ Persist.loadable (Persist.Document doc).
Proof.
  intros Hvalid. eexists. split; [reflexivity|].
  assert (Forall spec_state (Persist.save_items [] (Persist.of_Qtable Q))) as HD.
  { apply save_items_format; [constructor|]. unfold Persist.of_Qtable.
    apply Forall_fmap, Forall_forall. intros [k v] Hin. simpl. split; [|done].
    apply Hvalid. destruct (PyDict.get Q k) as [v'|] eqn:E; [by eexists|].
    apply dict_get_None_notin in E. exfalso. apply E.
    apply list_elem_of_fmap. by exists (k, v). }
  split; [by apply spec_state_format|by apply spec_state_loadable].
Qed.

Lemma save_q_table_format_witness :
  ∃ doc, Persist.save_q_table
           (Persist.of_Qtable [(("X        ", 4), 0.5%float); (("         ", 0), 0.25%float)])
         = Persist.Document doc
       ∧ Persist.spec_format_ok doc = true
       ∧ Persist.loadable (Persist.Document doc).
Proof.
  apply (save_q_table_format [(("X        ", 4), 0.5%float); (("         ", 0), 0.25%float)]).
  intros k [v Hk]. simpl in Hk.
  destruct (decide (("X        ", 4) = k)) as [<-|_]; [split; [reflexivity|simpl; lia]|].
  destruct (decide (("         ", 0) = k)) as [<-|_]; [split; [reflexivity|simpl; lia]|].
  discriminate Hk.
Defined.

(** ** The window *)

(** X14 ([get_cell_index]).  A pixel left of 60, right of 540, above 60 or
    below 540 hits no cell, and only such a pixel; a pixel inside the square
    of row [row] and column [col] of the drawn grid, each 160 pixels wide
    from (60, 60), gives the index [row * 3 + col]. *)
Theorem get_cell_index_cell (mx my : Z) :
  (UI.get_cell_index mx my = None ↔ mx < 60 ∨ 540 < mx ∨ my < 60 ∨ 540 < my)
  ∧ (∀ row col,
       0 ≤ row ≤ 2 → 0 ≤ col ≤ 2 →
       60 + 160 * col ≤ mx < 60 + 160 * (col + 1) →
       60 + 160 * row ≤ my < 60 + 160 * (row + 1) →
       UI.get_cell_index mx my = Some (row * 3 + col)).
Proof.
  split; [apply get_cell_index_None|].
  intros row col Hr Hc Hx Hy.
  rewrite get_cell_index_Some by lia.
  assert ((mx - 60) / 160 = col) as -> by (symmetry; apply Z.div_unique with (mx - 60 - 160 * col); lia).
  assert ((my - 60) / 160 = row) as -> by (symmetry; apply Z.div_unique with (my - 60 - 160 * row); lia).
  done.
Qed.

Lemma get_cell_index_cell_witness :
  UI.get_cell_index 300 400 = Some (2 * 3 + 1).
Proof.
  apply (proj2 (get_cell_index_cell 300 400) 2 1); lia.
Defined.

(** X15 ([get_cell_index]).  The test of the board's area lets the pixels of
    its right and bottom edge through: the index returned is at most 12, it
    is one of the nine cells exactly when the pixel is above the bottom edge
    and not on the right edge of the last row, and a pixel of the right edge
    in one of the first two rows gives the first cell of the row below. *)
Theorem get_cell_index_edge (mx my idx : Z) :
  UI.get_cell_index mx my = Some idx →
  0 ≤ idx ≤ 12
  ∧ (idx ≤ 8 ↔ my < 540 ∧ (mx < 540 ∨ my < 380))
  ∧ (mx = 540 → my < 380 → idx = ((my - 60) / 160 + 1) * 3).
Proof.
  intros H. destruct (get_cell_index_bounds mx my idx H) as (Hx & Hy & -> & Hidx).
  destruct (cell_div mx Hx) as (Hc & Hcx & Hc3).
  destruct (cell_div my Hy) as (Hr & Hry & Hr3).
  split; [done|]. split; [|lia]. split.
  - intros Hle. split; [lia|].
    destruct (decide (mx < 540)); [by left|right]. lia.
  - intros [Hmy Hmx]. lia.
Qed.

Lemma get_cell_index_edge_witness :
  0 ≤ 11 ≤ 12
  ∧ (11 ≤ 8 ↔ 540 < 540 ∧ (380 < 540 ∨ 540 < 380))
  ∧ (380 = 540 → 540 < 380 → 11 = ((540 - 60) / 160 + 1) * 3).
Proof.
  apply (get_cell_index_edge 380 540 11). reflexivity.
Defined.

(** X16 ([main] of the window).  While the game runs and the user is to
    move, a click on a pixel of the bottom edge of the board, or of the
    right edge in the last row, makes the frame raise [IndexError]: the
    index 9 .. 12 that [get_cell_index] returns is used in [board[idx]]. *)
Theorem frame_edge_click_raises (Q : QLearning.Qtable) (g : UI.game)
    (mx my : Z) (evs : list UI.event) (new quit : bool) (k : nat) :
  length (UI.board g) = 9%nat →
  UI.game_over g = false →
  UI.current_symbol g = "X"%string →
  60 ≤ mx ≤ 540 → 60 ≤ my ≤ 540 →
  my = 540 ∨ (mx = 540 ∧ 380 ≤ my) →
  UI.frame Q g (UI.FrameInput new quit (UI.MOUSEBUTTONDOWN mx my :: evs) k)
  = Raise IndexError.
Proof.
  intros Hlen Hover Hcur Hx Hy Hedge. unfold UI.frame.
  cbn [UI.events UI.handle_events]. rewrite Hover, Hcur. cbn [negb andb].
  rewrite bool_decide_eq_true_2 by done.
  destruct (UI.get_cell_index mx my) as [idx|] eqn:Ei.
  2:{ apply get_cell_index_None in Ei. lia. }
  destruct (get_cell_index_bounds mx my idx Ei) as (_ & _ & Hidx & Hrange).
  destruct (cell_div mx Hx) as (Hc & _ & Hc3). destruct (cell_div my Hy) as (Hr & Hry & Hr3).
  destruct (list_getitem_range (UI.board g) idx ltac:(lia)) as [Hhigh _].
  rewrite Hhigh; [done|]. rewrite Hlen. lia.
Qed.

Lemma frame_edge_click_raises_witness :
  UI.frame [] UI.initial_game
    (UI.FrameInput false false [UI.MOUSEBUTTONDOWN 300 540] 0)
  = Raise IndexError.
Proof.
  apply (frame_edge_click_raises [] UI.initial_game 300 540 [] false false 0);
    first [reflexivity | lia].
Defined.

(** X17 ([main] of the window).  Whatever the events, the button states and
    the draws of [random.choice], and whatever numbers the table holds, if
    the loop of [main] gets from the Empty board to the end of a frame
    without raising, then there the board has nine cells of [' '], ['X']
    and ['O'], it is the user's turn, and either the game is over with the
    message that fits the board (a line of the winner and none of the other
    player, or a full board without a line for a draw), or nobody has a
    line, a cell is Empty and both players have placed as many marks. *)
Theorem run_keeps_invariant (Q : QLearning.Qtable) (inputs : list UI.frame_input)
    (g' : UI.game) :
  UI.run Q UI.initial_game inputs = Ok g' → ui_invariant g'.
Proof.
  apply run_spec. apply (ui_invariant_reset true).
Qed.

Lemma run_keeps_invariant_witness :
  ui_invariant
    (UI.Game ["O"; " "; " "; " "; "X"; " "; " "; " "; " "]%string "X" false false "").
Proof.
  apply (run_keeps_invariant []
           [UI.FrameInput false false [UI.MOUSEBUTTONDOWN 300 300] 0;
            UI.FrameInput false false
              [UI.OTHER; UI.MOUSEBUTTONDOWN 100 100; UI.QUIT] 3]).
  reflexivity.
Defined.

(** X18 ([main] of the window).  A frame never changes or removes a mark
    that is on the board, except when the game was over as the frame began
    and the button for a new game is pressed, and then the board is Empty
    again: neither the user's click nor the reply of the program writes on
    an occupied cell. *)
Theorem frame_keeps_marks (Q : QLearning.Qtable) (g g' : UI.game) (i : UI.frame_input) :
  ui_invariant g →
  UI.frame Q g i = Ok g' →
  (UI.game_over g = true ∧ UI.overlay_new i = true ∧ UI.board g' = UI.empty_board)
  ∨ keeps_marks (UI.board g) (UI.board g').
Proof.
  intros Hg Hframe. destruct (frame_spec Q g i Hg) as [F _].
  by destruct (F g' Hframe).
Qed.

Lemma frame_keeps_marks_witness :
  (UI.game_over (UI.Game ["O"; " "; " "; " "; "X"; " "; " "; " "; " "]%string
                   "X" true false "") = true
   ∧ UI.overlay_new (UI.FrameInput false false [UI.MOUSEBUTTONDOWN 100 100] 0) = true
   ∧ UI.board (UI.Game ["O"; " "; " "; " "; "X"; " "; " "; " "; " "]%string
                 "X" true false "") = UI.empty_board)
  ∨ keeps_marks
      (UI.board (UI.Game ["O"; " "; " "; " "; "X"; " "; " "; " "; " "]%string
                   "X" true false ""))
      (UI.board (UI.Game ["O"; " "; " "; " "; "X"; " "; " "; " "; " "]%string
                   "X" true false "")).
Proof.
  apply (frame_keeps_marks []).
  - split_and!; [|reflexivity|].
    + split; [reflexivity|].
      repeat (apply Forall_cons; split; [auto|]). apply Forall_nil_2.
    + simpl. split; [|reflexivity]. by split_and!.
  - reflexivity.
Defined.

(** X19 ([main] of the window).  As long as every click that hits the board
    names one of the nine cells, that is none lands on the edge pixels of
    X15, the loop of [main] raises nothing, whatever the table: every frame
    runs to its end. *)
Theorem run_never_raises (Q : QLearning.Qtable) (inputs : list UI.frame_input) :
  Forall (fun i => Forall click_in_cells (UI.events i)) inputs →
  ∃ g', UI.run Q UI.initial_game inputs = Ok g'.
Proof.
  apply run_total. apply (ui_invariant_reset true).
Qed.

Lemma run_never_raises_witness :
  ∃ g', UI.run []
          UI.initial_game
          [UI.FrameInput false false [UI.MOUSEBUTTONDOWN 300 300] 0;
           UI.FrameInput false false
             [UI.OTHER; UI.MOUSEBUTTONDOWN 100 100; UI.QUIT] 3]
        = Ok g'.
Proof.
  apply (run_never_raises []).
  repeat (apply Forall_cons; split; [|try apply Forall_nil_2]);
    try apply Forall_nil_2; try exact I;
    intros idx; vm_compute; intros [= <-]; discriminate.
Defined.
